(** * Web-based tuner: pitch estimator, note mapper and display

    A shallow embedding of [src/js/pitch-detection.js] ([detectPitch],
    [detectPitchYIN]), of the note-recognition module ([noteFromFrequency],
    [frequencyFromNote], [getClosestNote], [getInstrumentReferences]) and of
    [processAudio] and [updateDisplay] of [src/js/main.js].

    - The two estimators only use [+ - * /], comparisons, [Math.floor],
      [Math.ceil] and [Float32Array] stores.  They are embedded over Rocq's
      primitive binary64 floats, which are the numbers of JavaScript, so the
      embedding runs and has the same [NaN], infinities and signed zeros.
      The position of the meter in [updateDisplay] is computed in binary64
      as well.
    - The note mapper calls [Math.log2] and [Math.pow], which ECMA-262 leaves
      implementation-approximated.  It is embedded over [number]: the real
      numbers extended with [NaN] and the two infinities, with the IEEE rules
      for the special values and exact arithmetic on the finite ones (no
      rounding, no overflow, a single zero).  This is the code up to
      rounding: a statement made on it holds of the code where rounding
      cannot change a note, an octave or the cents, that is away from the
      ties of [Math.round] and from the ends of the binary64 range; the
      statements that depend on this carry such bounds.
    - [noteFromFrequency] is embedded a second time over binary64
      ([NoteRecognition64]), with the approximated part of [Math.log2] as a
      parameter; there the quotient of the two frequencies underflows and
      overflows as in the code. *)

From Stdlib Require Import String Ascii ZArith List Bool Lia.
From Stdlib Require Import Floats.
From Stdlib Require Uint63.
From Stdlib Require Import Reals Lra R_Ifp Rpower.
Import ListNotations.

Set Warnings "-inexact-float".

(* ================================================================== *)
(** * Part I. binary64 helpers *)
(* ================================================================== *)

Module IEEE.
Local Open Scope float_scope.

(** An integer (an array length, a loop counter) as a JavaScript number. *)
Definition of_Z (z : Z) : float :=
  match z with
  | Z0 => 0
  | Zpos _ => of_uint63 (Uint63.of_Z z)
  | Zneg p => - of_uint63 (Uint63.of_Z (Zpos p))
  end.

Definition of_nat (n : nat) : float := of_Z (Z.of_nat n).

(** A store into a [Float32Array] rounds the double to binary32
    (precision 24, [emax] 128), to nearest even. *)
Definition fround (x : float) : float :=
  match Prim2SF x with
  | S754_finite s m e => SF2Prim (binary_round 24 128 s m e)
  | _ => x
  end.

(** [Math.floor]: a finite [x] is [(-1)^s * m * 2^e]; with [e >= 0] it is an
    integer already.  The sign of a zero result is the sign of [x]. *)
Definition Math_floor (x : float) : float :=
  match Prim2SF x with
  | S754_finite s m e =>
      if (0 <=? e)%Z then x
      else SF2Prim (binary_normalize prec emax
                      (Z.shiftr (cond_Zopp s (Zpos m)) (- e)) 0 s)
  | _ => x
  end.

(** [Math.ceil x = - Math.floor (- x)]. *)
Definition Math_ceil (x : float) : float :=
  match Prim2SF x with
  | S754_finite s m e =>
      if (0 <=? e)%Z then x
      else SF2Prim (binary_normalize prec emax
                      (- Z.shiftr (- cond_Zopp s (Zpos m)) (- e)) 0 s)
  | _ => x
  end.

(** The integer an integral number stands for; [None] for [NaN], the
    infinities and the numbers with a fractional part. *)
Definition to_Z (x : float) : option Z :=
  match Prim2SF x with
  | S754_zero _ => Some 0%Z
  | S754_finite s m e =>
      if (0 <=? e)%Z then Some (Z.shiftl (cond_Zopp s (Zpos m)) e)
      else if (Z.land (Zpos m) (Z.ones (- e)) =? 0)%Z
           then Some (Z.shiftr (cond_Zopp s (Zpos m)) (- e))
           else None
  | _ => None
  end.

(** [a[i]] on a typed array: [undefined] ([None]) out of range. *)
Definition get (a : list float) (i : Z) : option float :=
  if (i <? 0)%Z then None else nth_error a (Z.to_nat i).

(** [undefined] in arithmetic and in comparisons is [NaN]. *)
Definition ToNumber (v : option float) : float :=
  match v with
  | Some x => x
  | None => nan
  end.

(** The class of a number, read off its sign, mantissa and exponent. *)
Definition isNaN (x : float) : bool :=
  match Prim2SF x with
  | S754_nan => true
  | _ => false
  end.

Definition isInfinite (x : float) : bool :=
  match Prim2SF x with
  | S754_infinity _ => true
  | _ => false
  end.

Definition isZero (x : float) : bool :=
  match Prim2SF x with
  | S754_zero _ => true
  | _ => false
  end.

End IEEE.

(* ================================================================== *)
(** * Part II. pitch-detection.js *)
(* ================================================================== *)

Module PitchDetection.
Import IEEE.
Local Open Scope float_scope.

Definition THRESHOLD : float := 0.2.
Definition MIN_FREQUENCY : float := 50.
Definition MAX_FREQUENCY : float := 1500.

(** The value [detectPitch] returns for "no pitch detected". *)
Definition NO_PITCH : float := -1.

(** Lines 22-26: the mean square of the window. *)
Definition signalEnergy (buffer : list float) : float :=
  fold_left (fun acc x => acc + x * x) buffer 0 / of_nat (length buffer).

(** Lines 37-41: [xs] is the buffer and [ys] the buffer from index [lag] on,
    so the pairs are [buffer[i], buffer[i + lag]] for [i < bufferLength - lag]. *)
Fixpoint correlation (xs ys : list float) (acc : float) : float :=
  match xs, ys with
  | x :: xs', y :: ys' => correlation xs' ys' (acc + x * y)
  | _, _ => acc
  end.

(** Lines 34-44: the [Float32Array] of normalised correlations. *)
Definition correlations (buffer : list float) : list float :=
  let bufferLength := length buffer in
  map (fun lag =>
         fround (correlation buffer (skipn lag buffer) 0
                 / of_nat (bufferLength - lag)))
      (seq 0 bufferLength).

(** Lines 54-59, [steps] iterations from [period] on; [best] is
    [(bestPeriod, bestCorrelation)].  A read past the array is [undefined],
    and [undefined > bestCorrelation] is false. *)
Fixpoint findPeak (corr : list float) (steps : nat) (period : Z)
    (best : Z * float) : Z * float :=
  match steps with
  | O => best
  | S steps' =>
      findPeak corr steps' (period + 1)
        (match get corr period with
         | Some c => if snd best <? c then (period, c) else best
         | None => best
         end)
  end.

(** The loop [for (period = minPeriod; period < maxPeriod; period++)]: the
    number of iterations and the first [period].  With a bound that is [NaN]
    or infinite the test [period < maxPeriod] fails at once.  The counter is
    an integer here and a double in the source, where [period++] adds 1 only
    below [2^53]: this is the loop of the source for [maxPeriod <= 2^53]
    (sample rates up to about [4.5e17]); above, the loop of the source does
    not end.  The statements about the search carry that bound. *)
Definition searchSteps (minPeriod maxPeriod : float) : nat * Z :=
  match to_Z minPeriod, to_Z maxPeriod with
  | Some lo, Some hi => (Z.to_nat (hi - lo), lo)
  | _, _ => (O, 0%Z)
  end.

(** Lines 47-59. *)
Definition bestPeak (corr : list float) (sampleRate : float) : Z * float :=
  let minPeriod := Math_floor (sampleRate / MAX_FREQUENCY) in
  let maxPeriod := Math_ceil (sampleRate / MIN_FREQUENCY) in
  let '(steps, lo) := searchSteps minPeriod maxPeriod in
  findPeak corr steps lo ((-1)%Z, 0).

(** Line 77, the divisor [leftCorr - 2 * centerCorr + rightCorr]. *)
Definition denominator (corr : list float) (bestPeriod : Z) : float :=
  let leftCorr := ToNumber (get corr (bestPeriod - 1)) in
  let centerCorr := ToNumber (get corr bestPeriod) in
  let rightCorr := ToNumber (get corr (bestPeriod + 1)) in
  leftCorr - 2 * centerCorr + rightCorr.

(** The test of line 72. *)
Definition interior (corr : list float) (bestPeriod : Z) : bool :=
  ((0 <? bestPeriod) && (bestPeriod <? Z.of_nat (length corr) - 1))%Z.

(** Lines 70-79. *)
Definition refinedPeriod (corr : list float) (bestPeriod : Z) : float :=
  if interior corr bestPeriod then
    let leftCorr := ToNumber (get corr (bestPeriod - 1)) in
    let rightCorr := ToNumber (get corr (bestPeriod + 1)) in
    let peakOffset :=
      0.5 * (leftCorr - rightCorr) / denominator corr bestPeriod in
    of_Z bestPeriod + peakOffset
  else of_Z bestPeriod.

(** Line 62. *)
Definition normalizedCorrelation (corr : list float) (bestCorrelation : float)
  : float :=
  bestCorrelation / ToNumber (get corr 0).

Definition detectPitch (buffer : list float) (sampleRate : float) : float :=
  if signalEnergy buffer <? 0.001 then NO_PITCH
  else
    let corr := correlations buffer in
    let '(bestPeriod, bestCorrelation) := bestPeak corr sampleRate in
    if normalizedCorrelation corr bestCorrelation <? THRESHOLD then NO_PITCH
    else sampleRate / refinedPeriod corr bestPeriod.

(** A square wave of amplitude 0.5 and period 100 samples, [n] samples from
    phase [k] on. *)
Fixpoint squareWave (n k : nat) : list float :=
  match n with
  | O => []
  | S n' =>
      (if Nat.ltb (Nat.modulo k 100) 50 then 0.5 else -0.5)
      :: squareWave n' (S k)
  end.

(** A constant window of 1024 samples, the size [main.js] hands over
    ([fftSize = 2048], so [frequencyBinCount = 1024]). *)
Definition flatWindow : list float := repeat 0.5 1024.

(** ** [detectPitchYIN] *)

(** Line 97, the threshold of the YIN estimator (the [THRESHOLD] local to
    [detectPitchYIN]). *)
Definition YIN_THRESHOLD : float := 0.15.

(** Lines 106-111, one entry of the difference function: [n] iterations,
    [xs] the buffer and [ys] the buffer from index [tau] on.  The accumulator
    is an element of a [Float32Array], so every [+=] rounds to binary32. *)
Fixpoint difference (n : nat) (xs ys : list float) (acc : float) : float :=
  match n, xs, ys with
  | S n', x :: xs', y :: ys' =>
      let delta := x - y in
      difference n' xs' ys' (fround (acc + delta * delta))
  | _, _, _ => acc
  end.

(** Lines 102-112.  [new Float32Array(bufferLength / 2)] truncates the
    length to an integer. *)
Definition differenceFunction (buffer : list float) : list float :=
  let half := Nat.div2 (length buffer) in
  map (fun tau => difference half buffer (skipn tau buffer) 0) (seq 0 half).

(** Lines 118-121, from index [tau] on. *)
Fixpoint cumulative (ds : list float) (tau : Z) (runningSum : float)
  : list float :=
  match ds with
  | [] => []
  | d :: ds' =>
      let runningSum := runningSum + d in
      fround (d * (of_Z tau / runningSum))
      :: cumulative ds' (tau + 1) runningSum
  end.

(** Lines 115-121; the store [yinBuffer[0] = 1] into an array of length 0
    does nothing. *)
Definition normalise (ds : list float) : list float :=
  match ds with
  | [] => []
  | _ :: ds' => 1 :: cumulative ds' 1 0
  end.

(** Lines 133-135, the inner [while]: at most [fuel] steps, and it takes
    fewer than [yinBuffer.length]. *)
Fixpoint descend (yin : list float) (fuel : nat) (tau : Z) : Z :=
  match fuel with
  | O => tau
  | S fuel' =>
      if ((tau + 1 <? Z.of_nat (length yin))%Z
          && (ToNumber (get yin (tau + 1)) <? ToNumber (get yin tau)))%bool
      then descend yin fuel' (tau + 1)
      else tau
  end.

(** Lines 131-143, [steps] iterations from [tau] on; the state is
    [(minTau, minVal)]. *)
Fixpoint yinSearch (yin : list float) (steps : nat) (tau : Z)
    (best : Z * float) : Z * float :=
  match steps with
  | O => best
  | S steps' =>
      let y := ToNumber (get yin tau) in
      if y <? YIN_THRESHOLD then
        let tau' := descend yin (length yin) tau in
        (tau', ToNumber (get yin tau'))
      else if y <? snd best then yinSearch yin steps' (tau + 1) (tau, y)
      else yinSearch yin steps' (tau + 1) best
  end.

(** Lines 151-172. *)
Definition betterTau (yin : list float) (minTau : Z) : float :=
  let at_ i := ToNumber (get yin i) in
  let x0 := if (minTau <? 1)%Z then minTau else (minTau - 1)%Z in
  let x2 := if (minTau + 1 <? Z.of_nat (length yin))%Z
            then (minTau + 1)%Z else minTau in
  if (x0 =? minTau)%Z then
    if at_ minTau <=? at_ x2 then of_Z minTau else of_Z x2
  else if (x2 =? minTau)%Z then
    if at_ minTau <=? at_ x0 then of_Z minTau else of_Z x0
  else
    let s0 := at_ x0 in
    let s1 := at_ minTau in
    let s2 := at_ x2 in
    of_Z minTau + (s2 - s0) / (2 * (2 * s1 - s2 - s0)).

Definition yinBuffer (buffer : list float) : list float :=
  normalise (differenceFunction buffer).

Definition detectPitchYIN (buffer : list float) (sampleRate : float) : float :=
  let yin := yinBuffer buffer in
  let minPeriod := Math_floor (sampleRate / MAX_FREQUENCY) in
  let maxPeriod := Math_ceil (sampleRate / MIN_FREQUENCY) in
  let '(steps, lo) := searchSteps minPeriod maxPeriod in
  let '(minTau, minVal) := yinSearch yin steps lo ((-1)%Z, 1000) in
  if (minTau =? -1)%Z || (YIN_THRESHOLD <=? minVal) then NO_PITCH
  else sampleRate / betterTau yin minTau.

End PitchDetection.

(* ================================================================== *)
(** * Part III. the numbers of the note mapper *)
(* ================================================================== *)

Module Number.
Local Open Scope R_scope.

(** A JavaScript number, up to rounding: [NaN], [+Infinity], [-Infinity] or a
    real.  [Fin 0] stands for both zeros and behaves as [+0]. *)
Inductive number : Type :=
  | NaN
  | PInf
  | NInf
  | Fin (x : R).

Definition is_neg (x : R) : bool := if Rlt_dec x 0 then true else false.

Definition signed_inf (negative : bool) : number :=
  if negative then NInf else PInf.

Definition neg (a : number) : number :=
  match a with
  | NaN => NaN
  | PInf => NInf
  | NInf => PInf
  | Fin x => Fin (- x)
  end.

Definition add (a b : number) : number :=
  match a, b with
  | NaN, _ | _, NaN => NaN
  | PInf, NInf | NInf, PInf => NaN
  | PInf, _ | _, PInf => PInf
  | NInf, _ | _, NInf => NInf
  | Fin x, Fin y => Fin (x + y)
  end.

Definition sub (a b : number) : number := add a (neg b).

Definition mul (a b : number) : number :=
  match a, b with
  | NaN, _ | _, NaN => NaN
  | Fin x, Fin y => Fin (x * y)
  | Fin x, PInf | PInf, Fin x =>
      if Req_dec_T x 0 then NaN else signed_inf (is_neg x)
  | Fin x, NInf | NInf, Fin x =>
      if Req_dec_T x 0 then NaN else signed_inf (negb (is_neg x))
  | PInf, PInf | NInf, NInf => PInf
  | PInf, NInf | NInf, PInf => NInf
  end.

Definition div (a b : number) : number :=
  match a, b with
  | NaN, _ | _, NaN => NaN
  | (PInf | NInf), (PInf | NInf) => NaN
  | Fin _, (PInf | NInf) => Fin 0
  | PInf, Fin y => signed_inf (is_neg y)
  | NInf, Fin y => signed_inf (negb (is_neg y))
  | Fin x, Fin y =>
      if Req_dec_T y 0 then
        if Req_dec_T x 0 then NaN else signed_inf (is_neg x)
      else Fin (x / y)
  end.

(** [a <= b]; a comparison with [NaN] is false. *)
Definition leb (a b : number) : bool :=
  match a, b with
  | NaN, _ | _, NaN => false
  | NInf, _ | _, PInf => true
  | PInf, _ | _, NInf => false
  | Fin x, Fin y => if Rle_dec x y then true else false
  end.

(** The truth value of a number: [NaN] and zero are falsy. *)
Definition ToBoolean (a : number) : bool :=
  match a with
  | NaN => false
  | PInf | NInf => true
  | Fin x => if Req_dec_T x 0 then false else true
  end.

(** [Int_part] is the floor: [IZR (Int_part x) <= x < IZR (Int_part x) + 1]. *)
Definition Math_floor (a : number) : number :=
  match a with
  | Fin x => Fin (IZR (Int_part x))
  | _ => a
  end.

(** [Math.round]: the nearest integer, a tie going towards [+Infinity]. *)
Definition Math_round (a : number) : number :=
  match a with
  | Fin x => Fin (IZR (Int_part (x + / 2)))
  | _ => a
  end.

Definition Math_log2 (a : number) : number :=
  match a with
  | NaN | NInf => NaN
  | PInf => PInf
  | Fin x =>
      if Rlt_dec 0 x then Fin (ln x / ln 2)
      else if Req_dec_T x 0 then NInf else NaN
  end.

(** Rounding towards zero. *)
Definition truncate (x : R) : Z :=
  if Rle_dec 0 x then Int_part x else (- Int_part (- x))%Z.

(** [n % d]: the remainder has the sign of the dividend [n]. *)
Definition rem (n d : number) : number :=
  match n, d with
  | NaN, _ | _, NaN => NaN
  | (PInf | NInf), _ => NaN
  | Fin _, (PInf | NInf) => n
  | Fin x, Fin y =>
      if Req_dec_T y 0 then NaN else Fin (x - y * IZR (truncate (x / y)))
  end.

Definition is_integer (y : R) : bool :=
  if Req_dec_T y (IZR (Int_part y)) then true else false.

Definition is_odd_integer (y : R) : bool :=
  is_integer y && Z.odd (Int_part y).

(** [Math.pow], by the case table of ECMA-262 [Number::exponentiate]. *)
Definition Math_pow (base exponent : number) : number :=
  match exponent with
  | NaN => NaN
  | PInf =>
      match base with
      | NaN => NaN
      | PInf | NInf => PInf
      | Fin x =>
          if Rlt_dec 1 (Rabs x) then PInf
          else if Req_dec_T (Rabs x) 1 then NaN else Fin 0
      end
  | NInf =>
      match base with
      | NaN => NaN
      | PInf | NInf => Fin 0
      | Fin x =>
          if Rlt_dec 1 (Rabs x) then Fin 0
          else if Req_dec_T (Rabs x) 1 then NaN else PInf
      end
  | Fin y =>
      if Req_dec_T y 0 then Fin 1
      else
        match base with
        | NaN => NaN
        | PInf => if Rlt_dec 0 y then PInf else Fin 0
        | NInf =>
            if Rlt_dec 0 y then (if is_odd_integer y then NInf else PInf)
            else Fin 0
        | Fin x =>
            if Rlt_dec 0 x then Fin (Rpower x y)
            else if Req_dec_T x 0 then (if Rlt_dec 0 y then Fin 0 else PInf)
            else if is_integer y then
              Fin ((if Z.odd (Int_part y) then -1 else 1) * Rpower (- x) y)
            else NaN
        end
  end.

(** The value of a binary64 float as a [number]. *)
Definition of_float (x : float) : number :=
  match Prim2SF x with
  | S754_zero _ => Fin 0
  | S754_infinity s => signed_inf s
  | S754_nan => NaN
  | S754_finite s m e => Fin (IZR (cond_Zopp s (Zpos m)) * powerRZ 2 e)
  end.

End Number.

(* ================================================================== *)
(** * Part IV. the note-recognition module *)
(* ================================================================== *)

Module NoteRecognition.
Import Number.
Local Open Scope string_scope.

(** The values the module puts in its results. *)
Inductive value : Type :=
  | Null
  | Undefined
  | Str (s : string)
  | Num (n : number).

(** A call either returns or throws [new Error(msg)]. *)
Inductive result (A : Type) : Type :=
  | Ret (a : A)
  | Throw (msg : string).
Arguments Ret {A} a.
Arguments Throw {A} msg.

Definition bind {A B : Type} (r : result A) (k : A -> result B) : result B :=
  match r with
  | Ret a => k a
  | Throw msg => Throw msg
  end.

Notation "x <- r ;; k" := (bind r (fun x => k))
  (at level 61, r at next level, right associativity).

Fixpoint mapM {A B : Type} (f : A -> result B) (l : list A)
  : result (list B) :=
  match l with
  | [] => Ret []
  | a :: l' => b <- f a ;; bs <- mapM f l' ;; Ret (b :: bs)
  end.

Definition NOTE_NAMES : list string :=
  ["C"; "C#"; "D"; "D#"; "E"; "F"; "F#"; "G"; "G#"; "A"; "A#"; "B"].

(** A parameter with the default value [= 440]: the default is taken when
    the argument is left out ([None]). *)
Definition orDefault (arg : option number) : number :=
  match arg with
  | Some v => v
  | None => Fin 440
  end.

(** [a[i]] for a number [i]: an element when [i] is an integer within the
    array, [undefined] otherwise. *)
Definition index (a : list string) (i : number) : value :=
  match i with
  | Fin x =>
      let k := Int_part x in
      if Req_dec_T x (IZR k) then
        if (k <? 0)%Z then Undefined
        else match nth_error a (Z.to_nat k) with
             | Some s => Str s
             | None => Undefined
             end
      else Undefined
  | _ => Undefined
  end.

(** [a.indexOf(x)], searching from position [i]: [-1] when absent. *)
Fixpoint indexOf_from (a : list string) (x : string) (i : Z) : Z :=
  match a with
  | [] => (-1)%Z
  | y :: a' => if String.eqb y x then i else indexOf_from a' x (i + 1)
  end.

Definition indexOf (a : list string) (x : string) : Z := indexOf_from a x 0.

Record NoteResult : Type := {
  note : value;
  octave : value;
  cents : value
}.

(** Line 18. *)
Definition NO_NOTE : NoteResult :=
  {| note := Null; octave := Null; cents := Num (Fin 0) |}.

(** Line 26, [12 * Math.log2(frequency / referenceFrequency)]. *)
Definition exactHalfStepsFromA4 (frequency referenceFrequency : number)
  : number :=
  mul (Fin 12) (Math_log2 (div frequency referenceFrequency)).

(** Line 23. *)
Definition halfStepsFromA4 (frequency referenceFrequency : number) : number :=
  Math_round (mul (Fin 12) (Math_log2 (div frequency referenceFrequency))).

(** Line 29. *)
Definition centsOf (frequency referenceFrequency : number) : number :=
  Math_round
    (mul (sub (exactHalfStepsFromA4 frequency referenceFrequency)
              (halfStepsFromA4 frequency referenceFrequency))
         (Fin 100)).

Definition noteFromFrequency (frequency : number)
    (referenceFrequency : option number) : NoteResult :=
  let referenceFrequency := orDefault referenceFrequency in
  if negb (ToBoolean frequency) || leb frequency (Fin 0) then NO_NOTE
  else
    let halfSteps := halfStepsFromA4 frequency referenceFrequency in
    let cents := centsOf frequency referenceFrequency in
    let noteIndex := rem (add halfSteps (Fin 57)) (Fin 12) in
    let octave := Math_floor (div (add halfSteps (Fin 57)) (Fin 12)) in
    let note := index NOTE_NAMES noteIndex in
    {| note := note; octave := Num octave; cents := Num cents |}.

Definition frequencyFromNote (note : string) (octave : number)
    (referenceFrequency : option number) : result number :=
  let referenceFrequency := orDefault referenceFrequency in
  let noteIndex := indexOf NOTE_NAMES note in
  if (noteIndex =? -1)%Z then Throw ("Invalid note name: " ++ note)
  else
    let halfStepsFromA4 :=
      sub (add (Fin (IZR noteIndex)) (mul octave (Fin 12))) (Fin 57) in
    Ret (mul referenceFrequency
             (Math_pow (Fin 2) (div halfStepsFromA4 (Fin 12)))).

(** [noteFromFrequency(frequencyFromNote(note, octave, R), R)]. *)
Definition roundTrip (note : string) (octave : number)
    (referenceFrequency : option number) : result NoteResult :=
  frequency <- frequencyFromNote note octave referenceFrequency ;;
  Ret (noteFromFrequency frequency referenceFrequency).

(** One entry of the table of [getInstrumentReferences]. *)
Record InstrumentReference : Type := {
  strings : list string;
  frequencies : list number
}.

(** An entry: the calls [frequencyFromNote(name, octave)], with the
    reference left out, are evaluated in order. *)
Definition entry (labels : list string) (calls : list (string * Z))
  : result InstrumentReference :=
  fs <- mapM (fun c => frequencyFromNote (fst c) (Fin (IZR (snd c))) None)
             calls ;;
  Ret {| strings := labels; frequencies := fs |}.

(** Lines 100-139. *)
Definition references : result (list (string * InstrumentReference)) :=
  guitar <- entry ["E2"; "A2"; "D3"; "G3"; "B3"; "E4"]
                  [("E", 2); ("A", 2); ("D", 3); ("G", 3); ("B", 3); ("E", 4)]%Z ;;
  bass <- entry ["E1"; "A1"; "D2"; "G2"]
                [("E", 1); ("A", 1); ("D", 2); ("G", 2)]%Z ;;
  violin <- entry ["G3"; "D4"; "A4"; "E5"]
                  [("G", 3); ("D", 4); ("A", 4); ("E", 5)]%Z ;;
  ukulele <- entry ["G4"; "C4"; "E4"; "A4"]
                   [("G", 4); ("C", 4); ("E", 4); ("A", 4)]%Z ;;
  Ret [("guitar", guitar); ("bass", bass); ("violin", violin);
       ("ukulele", ukulele)].

(** The properties every object literal inherits from [Object.prototype];
    all of them are truthy. *)
Definition Object_prototype : list string :=
  ["constructor"; "hasOwnProperty"; "isPrototypeOf"; "propertyIsEnumerable";
   "toLocaleString"; "toString"; "valueOf"; "__proto__";
   "__defineGetter__"; "__defineSetter__"; "__lookupGetter__";
   "__lookupSetter__"].

(** What [references[instrument]] finds. *)
Inductive property : Type :=
  | Own (r : InstrumentReference)
  | Inherited (name : string).

Fixpoint lookup (table : list (string * InstrumentReference)) (key : string)
  : option InstrumentReference :=
  match table with
  | [] => None
  | (k, r) :: table' => if String.eqb k key then Some r else lookup table' key
  end.

(** Line 141, [references[instrument] || null]; [None] is [null]. *)
Definition getInstrumentReferences (instrument : string)
  : result (option property) :=
  table <- references ;;
  Ret (match lookup table instrument with
       | Some r => Some (Own r)
       | None =>
           if existsb (String.eqb instrument) Object_prototype
           then Some (Inherited instrument)
           else None
       end).

(** ** [getClosestNote] *)

(** The truth value of a value: [null], [undefined], the empty string, zero
    and [NaN] are falsy. *)
Definition truthy (v : value) : bool :=
  match v with
  | Null | Undefined => false
  | Str s => negb (String.eqb s "")
  | Num n => ToBoolean n
  end.

(** The object of lines 86-91. *)
Record ClosestNote : Type := {
  closest_note : value;
  closest_octave : value;
  closest_frequency : number;
  closest_cents : value
}.

(** Lines 76-92; [None] is [null].  The note of a [noteFromFrequency] result
    is [null], [undefined] or a string, and a string comes with a number as
    its octave, so past the test of line 79 the first case of the [match] is
    the one taken; in the others [NOTE_NAMES.indexOf] would not find the
    note. *)
Definition getClosestNote (frequency : number)
    (referenceFrequency : option number) : result (option ClosestNote) :=
  let referenceFrequency := orDefault referenceFrequency in
  let r := noteFromFrequency frequency (Some referenceFrequency) in
  if negb (truthy (note r)) then Ret None
  else
    match note r, octave r with
    | Str name, Num o =>
        exactFrequency <- frequencyFromNote name o (Some referenceFrequency) ;;
        Ret (Some {| closest_note := note r;
                     closest_octave := octave r;
                     closest_frequency := exactFrequency;
                     closest_cents := cents r |})
    | _, _ => Throw "Invalid note name"
    end.

End NoteRecognition.

(* ================================================================== *)
(** * Part IV bis. [noteFromFrequency] over binary64 *)
(* ================================================================== *)

(** The same function with the numbers of JavaScript: every operation is
    the one of binary64, so the quotient [frequency / referenceFrequency]
    rounds, underflows and overflows as in the code.  [Math.log2] is given
    by its cases in ECMA-262; the value on the other arguments, which the
    standard leaves implementation-approximated, is the parameter
    [approximation]. *)
Module NoteRecognition64.
Import IEEE.
Local Open Scope float_scope.

Inductive value : Type :=
  | Null
  | Undefined
  | Str (s : string)
  | Num (x : float).

Definition NOTE_NAMES : list string := NoteRecognition.NOTE_NAMES.

Definition orDefault (referenceFrequency : option float) : float :=
  match referenceFrequency with
  | Some r => r
  | None => 440
  end.

(** The truth value of a number: [NaN] and the two zeros are falsy. *)
Definition ToBoolean (x : float) : bool := negb (isNaN x || isZero x).

(** [Math.round]: the nearest integer, a tie going towards [+Infinity];
    a result that is zero has the sign of [x].  A finite [x] is
    [(-1)^s * m * 2^e], and with [e < 0] the result is
    [floor (x + 1/2) = floor ((2 * (-1)^s * m + 2^(-e)) / 2^(1 - e))],
    computed on the integers. *)
Definition Math_round (x : float) : float :=
  match Prim2SF x with
  | S754_finite s m e =>
      if (0 <=? e)%Z then x
      else SF2Prim (binary_normalize prec emax
                      (Z.shiftr (2 * cond_Zopp s (Zpos m) + 2 ^ (- e))
                                (1 - e)) 0 s)
  | _ => x
  end.

(** [n % d], the remainder of the truncating division, with the sign of the
    dividend ([Number::remainder]); it is computed on the integers [N] and
    [D] with [n = N * 2^e] and [d = D * 2^e]. *)
Definition rem (n d : float) : float :=
  match Prim2SF n, Prim2SF d with
  | S754_nan, _ | _, S754_nan => nan
  | S754_infinity _, _ => nan
  | _, S754_infinity _ => n
  | _, S754_zero _ => nan
  | S754_zero _, _ => n
  | S754_finite sn mn en, S754_finite _ md ed =>
      let e := Z.min en ed in
      let N := Z.shiftl (Zpos mn) (en - e) in
      let D := Z.shiftl (Zpos md) (ed - e) in
      SF2Prim (binary_normalize prec emax (cond_Zopp sn (Z.rem N D)) e sn)
  end.

(** [a[i]] for a number [i]: an element when [i] is an integer within the
    array ([-0] is the index 0), [undefined] otherwise. *)
Definition index (a : list string) (i : float) : value :=
  match to_Z i with
  | Some k =>
      if (k <? 0)%Z then Undefined
      else match nth_error a (Z.to_nat k) with
           | Some s => Str s
           | None => Undefined
           end
  | None => Undefined
  end.

Record NoteResult : Type := {
  note : value;
  octave : value;
  cents : value
}.

(** Line 18. *)
Definition NO_NOTE : NoteResult :=
  {| note := Null; octave := Null; cents := Num 0 |}.

Section Log2.

(** What the implementation returns where ECMA-262 only asks for an
    approximation of the logarithm. *)
Variable approximation : float -> float.

(** [Math.log2]: [NaN] and [+Infinity] are returned as they are, 1 gives
    [+0], a zero gives [-Infinity], a negative number gives [NaN]. *)
Definition Math_log2 (x : float) : float :=
  if isNaN x then nan
  else if x =? infinity then infinity
  else if x =? 1 then 0
  else if isZero x then neg_infinity
  else if x <? 0 then nan
  else approximation x.

(** Lines 15-43. *)
Definition noteFromFrequency (frequency : float)
    (referenceFrequency : option float) : NoteResult :=
  let referenceFrequency := orDefault referenceFrequency in
  if negb (ToBoolean frequency) || (frequency <=? 0) then NO_NOTE
  else
    let halfStepsFromA4 :=
      Math_round (12 * Math_log2 (frequency / referenceFrequency)) in
    let exactHalfStepsFromA4 :=
      12 * Math_log2 (frequency / referenceFrequency) in
    let cents := Math_round ((exactHalfStepsFromA4 - halfStepsFromA4) * 100) in
    let noteIndex := rem (halfStepsFromA4 + 57) 12 in
    let octave := Math_floor ((halfStepsFromA4 + 57) / 12) in
    let note := index NOTE_NAMES noteIndex in
    {| note := note; octave := Num octave; cents := Num cents |}.

End Log2.

End NoteRecognition64.

(* ================================================================== *)
(** * Part IV'. main.js: what [processAudio] puts on the display *)
(* ================================================================== *)

Module Main.
Import Number NoteRecognition.
Local Open Scope R_scope.

(** [a < b]; a comparison with [NaN] is false. *)
Definition ltb (a b : number) : bool :=
  match a, b with
  | NaN, _ | _, NaN => false
  | PInf, _ | _, NInf => false
  | NInf, _ | _, PInf => true
  | Fin x, Fin y => if Rlt_dec x y then true else false
  end.

Definition Math_abs (a : number) : number :=
  match a with
  | NaN => NaN
  | PInf | NInf => PInf
  | Fin x => Fin (Rabs x)
  end.

Definition isNegativeZero (x : float) : bool :=
  match Prim2SF x with
  | S754_zero true => true
  | _ => false
  end.

(** [Math.max] and [Math.min] of two numbers, in binary64: [NaN] if one of
    them is, and [+0] is larger than [-0]. *)
Definition Math_max (a b : float) : float :=
  (if IEEE.isNaN a || IEEE.isNaN b then nan
   else if a <? b then b
   else if b <? a then a
   else if isNegativeZero a then b else a)%float.

Definition Math_min (a b : float) : float :=
  (if IEEE.isNaN a || IEEE.isNaN b then nan
   else if a <? b then a
   else if b <? a then b
   else if isNegativeZero a then a else b)%float.

(** The double of a number that is [NaN], infinite or an integer of size at
    most [2^53]: such are the cents of [noteFromFrequency], which come from
    [Math.round].  No double is named for another real. *)
Definition to_float (a : number) : option float :=
  match a with
  | NaN => Some nan
  | PInf => Some infinity
  | NInf => Some neg_infinity
  | Fin x =>
      if is_integer x && (Z.abs (Int_part x) <=? 2 ^ 53)%Z
      then Some (IEEE.of_Z (Int_part x))
      else None
  end.

(** What [updateDisplay] writes when it shows a note (lines 143-159).  The
    texts built with [toFixed] and the template literals are kept as the
    numbers they print: [frequency] with two digits and " Hz", [cents] with
    none and " cents", [left] followed by "%".  [left] is computed in
    binary64 from the double of [cents]. *)
Record Shown : Type := {
  noteName : value;
  octaveText : value;
  frequencyShown : number;
  centsShown : number;
  left : option float;
  backgroundColor : string
}.

(** The display after [updateDisplay]: a note, or the reset of lines
    162-167 ("--", "-", "0 Hz", "0 cents", "50%", the accent colour). *)
Inductive Display : Type :=
  | Note (s : Shown)
  | Blank.

(** Lines 153-159. *)
Definition meterColor (cents : number) : string :=
  if ltb (Math_abs cents) (Fin 5) then "var(--success-color)"%string
  else if ltb (Math_abs cents) (Fin 15) then "var(--accent-color)"%string
  else "var(--error-color)"%string.

(** Lines 149-150, with the operations of binary64. *)
Definition meterLeft (cents : float) : float :=
  let position := (50 + cents / 50 * 50)%float in
  Math_max 0%float (Math_min 100%float position).

(** Lines 141-169.  [frequency] is a number or [null] ([None]); [cents] has
    the default value 0. *)
Definition updateDisplay (note octave : value) (frequency : option number)
    (cents : option number) : Display :=
  let cents := match cents with Some c => c | None => Fin 0 end in
  match frequency with
  | Some f =>
      if truthy note && truthy octave && ToBoolean f then
        Note {| noteName := note;
                octaveText := octave;
                frequencyShown := f;
                centsShown := cents;
                left := option_map meterLeft (to_float cents);
                backgroundColor := meterColor cents |}
      else Blank
  | None => Blank
  end.

(** The [cents] argument of line 128: the field of a [noteFromFrequency]
    result is a number; [undefined] would take the default. *)
Definition centsArgument (v : value) : option number :=
  match v with
  | Num c => Some c
  | _ => None
  end.

(** Lines 121-129 of [processAudio]: the new display, or [None] when
    [updateDisplay] is not called and the display stays as it is. *)
Definition processAudio (dataArray : list float) (sampleRate : float)
    (referenceFrequency : number) : option Display :=
  let frequency := PitchDetection.detectPitch dataArray sampleRate in
  if negb (PrimFloat.eqb frequency (-1)%float) then
    let r := noteFromFrequency (of_float frequency) (Some referenceFrequency) in
    Some (updateDisplay (note r) (octave r) (Some (of_float frequency))
                        (centsArgument (cents r)))
  else None.

End Main.

(* ================================================================== *)
(** * Part V. notions used in the statements *)
(* ================================================================== *)

Module Statements.
Import Number NoteRecognition.
Local Open Scope R_scope.

(** The exact distance of [f] from the reference [r], in semitones. *)
Definition steps (f r : R) : R := 12 * (ln (f / r) / ln 2).

(** The nearest integer, a tie going up. *)
Definition nearest (x : R) : Z := Int_part (x + / 2).

(** The sample rates at which the search loops of [detectPitch] and
    [detectPitchYIN] end, and [searchSteps] counts them: [maxPeriod], the
    bound of the counter, is at most [2^53]. *)
Definition searchEnds (sampleRate : float) : Prop :=
  (IEEE.Math_ceil (sampleRate / PitchDetection.MIN_FREQUENCY)
   <=? 9007199254740992)%float = true.

(** A [yinBuffer] whose entries, and the reads past it, are all 1 or
    [NaN]. *)
Definition flat (yin : list float) : Prop :=
  forall i,
    IEEE.ToNumber (IEEE.get yin i) = 1%float \/
    IEEE.ToNumber (IEEE.get yin i) = nan.

(** The estimate of [detectPitch] on the square wave of period 100 samples
    at 44100 Hz, about 440.9. *)
Definition squareWaveEstimate : R := IZR 7755966713473040 * powerRZ 2 (-44).

(** A string label such as ["E2"]: the note name and the octave digit. *)
Fixpoint parseLabel (label : string) : option (string * Z) :=
  match label with
  | EmptyString => None
  | String c EmptyString =>
      let d := (Z.of_nat (nat_of_ascii c) - 48)%Z in
      if ((0 <=? d) && (d <=? 9))%Z then Some (EmptyString, d) else None
  | String c rest =>
      match parseLabel rest with
      | Some (name, d) => Some (String c name, d)
      | None => None
      end
  end.

(** The frequency that belongs to a string label, with the reference 440. *)
Definition fromLabel440 (label : string) (frequency : number) : Prop :=
  exists name o,
    parseLabel label = Some (name, o) /\
    frequencyFromNote name (Fin (IZR o)) (Some (Fin 440)) = Ret frequency.

End Statements.

(* ================================================================== *)
(** * Part VI. facts about binary64 *)
(* ================================================================== *)

Module IEEEFacts.
Import IEEE.
Local Open Scope float_scope.

Lemma is_nan_true (x : float) : isNaN x = true -> is_nan x = true.
Proof.
  unfold isNaN, is_nan. rewrite FloatAxioms.eqb_spec.
  now destruct (Prim2SF x).
Qed.

Lemma eqb_zero_true (x : float) : isZero x = true -> (x =? 0) = true.
Proof.
  unfold isZero. rewrite FloatAxioms.eqb_spec.
  now destruct (Prim2SF x) as [[|] | | |].
Qed.

Lemma eqb_zero_inv (x : float) : (x =? 0) = true -> isZero x = true.
Proof.
  unfold isZero. rewrite FloatAxioms.eqb_spec.
  now destruct (Prim2SF x) as [s | [|] | | [|] m e].
Qed.

(** Dividing by a zero gives [NaN] or an infinity. *)
Lemma div_by_zero (x d : float) :
  isZero d = true -> isNaN (x / d) || isInfinite (x / d) = true.
Proof.
  unfold isNaN, isInfinite, isZero. rewrite div_spec.
  destruct (Prim2SF d); try discriminate.
  now destruct (Prim2SF x).
Qed.

(** Adding [NaN] or an infinity gives [NaN] or an infinity. *)
Lemma add_nan_or_infinite (x t : float) :
  isNaN t || isInfinite t = true -> isNaN (x + t) || isInfinite (x + t) = true.
Proof.
  unfold isNaN, isInfinite. rewrite add_spec.
  destruct (Prim2SF t) as [s | s | | s m e]; try discriminate; intros _.
  - destruct (Prim2SF x) as [sx | sx | | sx mx ex]; try reflexivity.
    now destruct sx, s.
  - now destruct (Prim2SF x).
Qed.

(** Dividing by [NaN] or by an infinity gives [NaN] or a zero. *)
Lemma div_by_nan_or_infinite (x u : float) :
  isNaN u || isInfinite u = true -> isNaN (x / u) || isZero (x / u) = true.
Proof.
  unfold isNaN, isInfinite, isZero. rewrite div_spec.
  destruct (Prim2SF u); try discriminate; now destruct (Prim2SF x).
Qed.

(** ** Array lengths as numbers *)

Lemma digits2_pos_size (p : positive) : digits2_pos p = Pos.size p.
Proof.
  induction p; cbn; congruence.
Qed.

Lemma digits2_pos_iter_xO (k p : positive) :
  digits2_pos (Pos.iter xO p k) = (digits2_pos p + k)%positive.
Proof.
  induction k as [| k IH] using Pos.peano_ind.
  - cbn. lia.
  - rewrite Pos.iter_succ. cbn. rewrite IH. lia.
Qed.

Lemma digits2_pos_le_53 (p : positive) :
  (Zpos p < 2 ^ 53)%Z -> (Zpos (digits2_pos p) <= 53)%Z.
Proof.
  intros H. rewrite digits2_pos_size.
  destruct (Z.le_gt_cases (Zpos (Pos.size p)) 53) as [L | G]; [exact L |].
  exfalso. pose proof (Pos.size_le p) as S.
  assert (2 ^ 54 <= 2 ^ Zpos (Pos.size p))%Z by (apply Z.pow_le_mono_r; lia).
  assert (Zpos (2 ^ Pos.size p) = 2 ^ Zpos (Pos.size p))%Z
    by (rewrite Pos2Z.inj_pow; reflexivity).
  change (2 ^ 53)%Z with 9007199254740992%Z in H.
  change (2 ^ 54)%Z with 18014398509481984%Z in *.
  lia.
Qed.

(** An integer below [2^53] needs no rounding: its mantissa is shifted left
    to 53 digits and nothing is shifted out. *)
Lemma binary_normalize_small (p : positive) :
  (Zpos p < 2 ^ 53)%Z ->
  exists m e,
    binary_normalize prec emax (Zpos p) 0 false = S754_finite false m e.
Proof.
  intros H. pose proof (digits2_pos_le_53 p H) as Hd.
  unfold binary_normalize, binary_round.
  set (d := digits2_pos p) in *.
  assert (Ef : fexp prec emax (Zpos d + 0) = (Zpos d - 53)%Z).
  { unfold fexp, SpecFloat.emin, prec, emax. lia. }
  rewrite Ef. unfold shl_align.
  replace (Zpos d - 53 - 0)%Z with (Zpos d - 53)%Z by lia.
  destruct (Zpos d - 53)%Z as [| q | q] eqn:Eq; try lia.
  - unfold binary_round_aux, shr_fexp. cbn [Zdigits2 shr_record_of_loc].
    fold d.
    assert (Ef' : (fexp prec emax (Zpos d + 0) - 0 = 0)%Z) by (rewrite Ef; lia).
    rewrite Ef'. cbn [shr shr_m loc_of_shr_record round_nearest_even Zdigits2].
    fold d. rewrite Ef'. cbn. eauto.
  - unfold binary_round_aux, shr_fexp. cbn [Zdigits2 shr_record_of_loc].
    rewrite digits2_pos_iter_xO. fold d.
    assert (Ef' : (fexp prec emax (Zpos (d + q) + Zneg q) - Zneg q = 0)%Z).
    { unfold fexp, SpecFloat.emin, prec, emax. lia. }
    rewrite Ef'. cbn [shr shr_m loc_of_shr_record round_nearest_even Zdigits2].
    rewrite digits2_pos_iter_xO. fold d. rewrite Ef'. cbn [shr shr_m].
    assert (L : (Zneg q <=? emax - prec)%Z = true)
      by (apply Z.leb_le; unfold emax, prec; lia).
    rewrite L. eauto.
Qed.

(** The length of a non-empty typed array is a positive number. *)
Lemma of_Z_positive (z : Z) : (0 < z < 2 ^ 53)%Z -> (0 <? of_Z z) = true.
Proof.
  intros [H0 H1]. destruct z as [| p | p]; try lia.
  unfold of_Z. rewrite FloatAxioms.ltb_spec, of_uint63_spec.
  rewrite Uint63.of_Z_spec. rewrite Z.mod_small.
  2:{ split; [lia |]. unfold Uint63.wB. cbn.
      change (2 ^ 53)%Z with 9007199254740992%Z in H1. lia. }
  destruct (binary_normalize_small p H1) as (m & e & ->).
  reflexivity.
Qed.

(** A zero is [+0] or [-0]. *)
Lemma zero_cases (x : float) : (x =? 0) = true -> x = 0 \/ x = -0.
Proof.
  intros H. apply eqb_zero_inv in H. unfold isZero in H.
  destruct (Prim2SF x) as [[|] | | |] eqn:E; try discriminate.
  - right. now apply Prim2SF_inj.
  - left. now apply Prim2SF_inj.
Qed.

(** [+0] over a positive number is a zero, hence below [0.001]. *)
Lemma zero_div_positive (y : float) :
  (0 <? y) = true -> (0 / y <? 0.001) = true.
Proof.
  rewrite !FloatAxioms.ltb_spec, div_spec.
  change (Prim2SF 0) with (S754_zero false).
  destruct (Prim2SF y) as [s | s | | s m e]; cbn.
  - discriminate.
  - destruct s; [discriminate | reflexivity].
  - discriminate.
  - destruct s; [discriminate | reflexivity].
Qed.

End IEEEFacts.

(* ================================================================== *)
(** * Part VII. the pitch estimator *)
(* ================================================================== *)

Module PitchDetectionFacts.
Import IEEE IEEEFacts PitchDetection.
Local Open Scope float_scope.

(** The energy gate of lines 29-31. *)
Lemma energy_gate (buffer : list float) (sampleRate : float) :
  (signalEnergy buffer <? 0.001) = true ->
  detectPitch buffer sampleRate = NO_PITCH.
Proof.
  unfold detectPitch. now intros ->.
Qed.

(** Past both gates the result is [sampleRate / refinedPeriod]. *)
Lemma detectPitch_past_gates (buffer : list float) (sampleRate : float) :
  let corr := correlations buffer in
  let best := bestPeak corr sampleRate in
  (signalEnergy buffer <? 0.001) = false ->
  (normalizedCorrelation corr (snd best) <? THRESHOLD) = false ->
  detectPitch buffer sampleRate = sampleRate / refinedPeriod corr (fst best).
Proof.
  cbv zeta. unfold detectPitch. intros -> H.
  destruct (bestPeak (correlations buffer) sampleRate) as [bp bc].
  cbn [fst snd] in *. now rewrite H.
Qed.

(** The search over an empty array of correlations finds nothing. *)
Lemma findPeak_nil (steps : nat) (period : Z) (best : Z * float) :
  findPeak [] steps period best = best.
Proof.
  revert period. induction steps as [| n IH]; intros period; cbn.
  - reflexivity.
  - replace (get [] period) with (@None float); [apply IH |].
    unfold get. destruct (period <? 0)%Z; [reflexivity |].
    now destruct (Z.to_nat period).
Qed.

Lemma bestPeak_nil (sampleRate : float) :
  bestPeak [] sampleRate = ((-1)%Z, 0).
Proof.
  unfold bestPeak.
  destruct (searchSteps _ _) as [steps lo]. apply findPeak_nil.
Qed.

(** C1, the empty window.  On a window of length 0 the mean square is
    [0 / 0 = NaN], the test [NaN < 0.001] is false and the energy gate is not
    taken; no peak is found, [bestPeriod] stays [-1], and [detectPitch]
    returns [sampleRate / -1], which is [-44100] at 44.1 kHz and not the
    no-pitch value [-1]. *)
Theorem detectPitch_empty_window :
  (signalEnergy [] <? 0.001) = false /\
  (forall sampleRate, detectPitch [] sampleRate = sampleRate / -1) /\
  detectPitch [] 44100 = -44100 /\
  detectPitch [] 44100 <> NO_PITCH.
Proof.
  assert (G : forall sampleRate, detectPitch [] sampleRate = sampleRate / -1).
  { intros sampleRate. unfold detectPitch.
    change (signalEnergy [] <? 0.001) with false. cbv iota.
    change (correlations []) with (@nil float).
    rewrite bestPeak_nil. reflexivity. }
  split; [reflexivity |]. split; [exact G |]. rewrite G. split.
  - reflexivity.
  - intros H. apply (f_equal (fun x => x =? -1)) in H.
    vm_compute in H. discriminate.
Qed.

(** ** Silence *)

(** The sum of the squares of zeros is [+0]. *)
Lemma sum_of_squares_zeros (buffer : list float) :
  Forall (fun x => (x =? 0) = true) buffer ->
  fold_left (fun acc x => acc + x * x) buffer 0 = 0.
Proof.
  induction 1 as [| x l Hx _ IH]; cbn.
  - reflexivity.
  - destruct (zero_cases x Hx) as [-> | ->]; exact IH.
Qed.

(** The part of C1 on windows that are not empty: a window of zeros (of
    either sign) has mean square [+0 / bufferLength], a zero, and the energy
    gate returns the no-pitch value. *)
Lemma detectPitch_all_zero (buffer : list float) (sampleRate : float) :
  buffer <> [] ->
  (Z.of_nat (length buffer) < 2 ^ 53)%Z ->
  Forall (fun x => (x =? 0) = true) buffer ->
  detectPitch buffer sampleRate = NO_PITCH.
Proof.
  intros Hne Hlen Hz. apply energy_gate. unfold signalEnergy.
  rewrite sum_of_squares_zeros by assumption.
  apply zero_div_positive, of_Z_positive.
  destruct buffer; [contradiction | cbn [length] in *; lia].
Qed.

Lemma detectPitch_all_zero_example :
  detectPitch (repeat 0 1024) 44100 = NO_PITCH.
Proof.
  apply detectPitch_all_zero.
  - discriminate.
  - rewrite repeat_length. reflexivity.
  - apply Forall_forall. intros x Hx. apply repeat_spec in Hx. now subst x.
Qed.

(** A window of low amplitude, 0.01 throughout: the mean square is about
    0.0001, under the threshold. *)
Lemma detectPitch_low_amplitude_example :
  detectPitch (repeat 0.01 1024) 44100 = NO_PITCH.
Proof.
  apply energy_gate. vm_compute. reflexivity.
Qed.

(** The embedding at work on a tone: a square wave of period 100 samples at
    44100 Hz (441 Hz) is estimated within 1 Hz. *)
Lemma detectPitch_square_wave_example :
  let estimate := detectPitch (squareWave 512 0) 44100 in
  (440 <? estimate) && (estimate <? 442) = true.
Proof.
  vm_compute. reflexivity.
Qed.

(** ** Refinement of the peak *)

(** With the peak lag outside [(0, bufferLength - 1)] the integer lag is
    used as it is. *)
Lemma refinedPeriod_not_interior (corr : list float) (bestPeriod : Z) :
  interior corr bestPeriod = false ->
  refinedPeriod corr bestPeriod = of_Z bestPeriod.
Proof.
  unfold refinedPeriod. now intros ->.
Qed.

(** With a zero divisor the refined period is [NaN] or infinite. *)
Lemma refinedPeriod_zero_denominator (corr : list float) (bestPeriod : Z) :
  interior corr bestPeriod = true ->
  (denominator corr bestPeriod =? 0) = true ->
  isNaN (refinedPeriod corr bestPeriod)
  || isInfinite (refinedPeriod corr bestPeriod) = true.
Proof.
  unfold refinedPeriod. intros -> H.
  apply add_nan_or_infinite, div_by_zero, eqb_zero_inv, H.
Qed.

(** There is no test of the divisor.  Past both gates: when the peak lag is
    not strictly between 0 and [bufferLength - 1] the result is
    [sampleRate / bestPeriod]; when it is, line 77 divides whatever the
    divisor, and with a zero divisor the result is [NaN] or a zero. *)
Lemma detectPitch_zero_denominator (buffer : list float) (sampleRate : float) :
  let corr := correlations buffer in
  let best := bestPeak corr sampleRate in
  (signalEnergy buffer <? 0.001) = false ->
  (normalizedCorrelation corr (snd best) <? THRESHOLD) = false ->
  (interior corr (fst best) = false ->
   detectPitch buffer sampleRate = sampleRate / of_Z (fst best)) /\
  (interior corr (fst best) = true ->
   (denominator corr (fst best) =? 0) = true ->
   is_nan (detectPitch buffer sampleRate) = true \/
   (detectPitch buffer sampleRate =? 0) = true).
Proof.
  intros corr best He Hc.
  rewrite (detectPitch_past_gates buffer sampleRate He Hc).
  fold corr. fold best. split.
  - intros Hi. now rewrite refinedPeriod_not_interior.
  - intros Hi Hd.
    pose proof (div_by_nan_or_infinite sampleRate _
                  (refinedPeriod_zero_denominator corr (fst best) Hi Hd)) as H.
    apply orb_true_iff in H. destruct H as [H | H].
    + left. now apply is_nan_true.
    + right. now apply eqb_zero_true.
Qed.

(** On the constant window the peak lag is 29, an interior lag, the three
    correlations around it are all 0.25, the divisor is 0, and the result is
    [NaN]. *)
Lemma detectPitch_zero_denominator_witness :
  is_nan (detectPitch flatWindow 44100) = true \/
  (detectPitch flatWindow 44100 =? 0) = true.
Proof.
  apply (detectPitch_zero_denominator flatWindow 44100); vm_compute; reflexivity.
Defined.

(** C2.  On the constant window of 1024 samples of 0.5 at 44.1 kHz, the
    window size [main.js] hands over, both gates are passed, the peak lag is
    29, an interior lag, and the divisor [leftCorr - 2 * centerCorr +
    rightCorr] is zero.  The code has no fallback to the integer lag: it
    divides by zero and returns [NaN], not [44100 / 29] and not the no-pitch
    value. *)
Theorem detectPitch_flat_window :
  let corr := correlations flatWindow in
  (signalEnergy flatWindow <? 0.001) = false /\
  bestPeak corr 44100 = (29%Z, 0.25) /\
  (normalizedCorrelation corr 0.25 <? THRESHOLD) = false /\
  interior corr 29 = true /\
  denominator corr 29 = 0 /\
  detectPitch flatWindow 44100 = nan /\
  detectPitch flatWindow 44100 <> 44100 / of_Z 29.
Proof.
  cbv zeta.
  split; [vm_compute; reflexivity |]. split; [vm_compute; reflexivity |].
  split; [vm_compute; reflexivity |]. split; [vm_compute; reflexivity |].
  split; [vm_compute; reflexivity |]. split; [vm_compute; reflexivity |].
  intros H. apply (f_equal is_nan) in H. vm_compute in H. discriminate.
Qed.

End PitchDetectionFacts.

(* ================================================================== *)
(** * Part VIII. facts about [number] *)
(* ================================================================== *)

Module NumberFacts.
Import Number.
Local Open Scope R_scope.

Lemma Int_part_bounds (x : R) :
  IZR (Int_part x) <= x < IZR (Int_part x) + 1.
Proof.
  destruct (base_Int_part x) as [H1 H2]. lra.
Qed.

Lemma Int_part_unique (x : R) (z : Z) :
  IZR z <= x < IZR z + 1 -> Int_part x = z.
Proof.
  intros H. symmetry. apply Int_part_spec. lra.
Qed.

Lemma Int_part_IZR (z : Z) : Int_part (IZR z) = z.
Proof.
  apply Int_part_unique. lra.
Qed.

Lemma Int_part_le (x y : R) : x <= y -> (Int_part x <= Int_part y)%Z.
Proof.
  intros H.
  destruct (Int_part_bounds x) as [Hx _], (Int_part_bounds y) as [_ Hy].
  apply Z.lt_succ_r, lt_IZR. rewrite succ_IZR. lra.
Qed.

(** The floor of a quotient of integers is the floor division of [Z]. *)
Lemma Int_part_div (a b : Z) :
  (0 < b)%Z -> Int_part (IZR a / IZR b) = (a / b)%Z.
Proof.
  intros Hb. apply Int_part_unique.
  assert (Hb' : 0 < IZR b) by now apply IZR_lt.
  pose proof (Z.div_mod a b ltac:(lia)) as E.
  pose proof (Z.mod_pos_bound a b Hb) as [H0 H1].
  apply IZR_le in H0. apply IZR_lt in H1.
  apply (f_equal IZR) in E. rewrite plus_IZR, mult_IZR in E.
  replace (IZR a / IZR b) with (IZR (a / b) + IZR (a mod b) / IZR b)
    by (rewrite E; field; lra).
  assert (0 <= IZR (a mod b) / IZR b < 1); [| lra].
  split.
  - apply Rmult_le_pos; [lra |]. left. now apply Rinv_0_lt_compat.
  - apply (Rmult_lt_reg_r (IZR b)); [lra |].
    unfold Rdiv. rewrite Rmult_assoc, Rinv_l; lra.
Qed.

(** Rounding a quotient of integers towards zero is [Z.quot]. *)
Lemma truncate_div (a b : Z) :
  (0 < b)%Z -> truncate (IZR a / IZR b) = (a ÷ b)%Z.
Proof.
  intros Hb. unfold truncate.
  assert (Hb' : 0 < IZR b) by now apply IZR_lt.
  destruct (Rle_dec 0 (IZR a / IZR b)) as [H | H].
  - assert (0 <= a)%Z.
    { apply le_IZR. apply (Rmult_le_compat_r (IZR b)) in H; [| lra].
      unfold Rdiv in H. rewrite Rmult_assoc, Rinv_l in H; lra. }
    rewrite Int_part_div by assumption. symmetry. apply Z.quot_div_nonneg; lia.
  - assert (a < 0)%Z.
    { apply lt_IZR. apply Rnot_le_lt in H.
      apply (Rmult_lt_compat_r (IZR b)) in H; [| lra].
      unfold Rdiv in H. rewrite Rmult_assoc, Rinv_l in H; lra. }
    replace (- (IZR a / IZR b)) with (IZR (- a) / IZR b)
      by (rewrite opp_IZR; field; lra).
    rewrite Int_part_div by assumption.
    rewrite <- (Z.quot_div_nonneg (- a) b) by lia.
    rewrite Z.quot_opp_l by lia. lia.
Qed.

(** [a % b] on integers is [Z.rem]. *)
Lemma rem_IZR (a b : Z) :
  (0 < b)%Z -> rem (Fin (IZR a)) (Fin (IZR b)) = Fin (IZR (Z.rem a b)).
Proof.
  intros Hb. unfold rem.
  assert (Hb' : 0 < IZR b) by now apply IZR_lt.
  destruct (Req_dec_T (IZR b) 0) as [E | _]; [lra |].
  rewrite truncate_div by assumption. f_equal.
  rewrite <- mult_IZR, <- minus_IZR. f_equal.
  pose proof (Z.quot_rem' a b). lia.
Qed.

Lemma floor_div_IZR (a b : Z) :
  (0 < b)%Z ->
  Math_floor (div (Fin (IZR a)) (Fin (IZR b))) = Fin (IZR (a / b)).
Proof.
  intros Hb. unfold div, Math_floor.
  assert (Hb' : 0 < IZR b) by now apply IZR_lt.
  destruct (Req_dec_T (IZR b) 0) as [E | _]; [lra |].
  now rewrite Int_part_div.
Qed.

Lemma ln_2_pos : 0 < ln 2.
Proof.
  pose proof ln_lt_2. lra.
Qed.

(** [Math.round] of an integer is that integer. *)
Lemma round_IZR (z : Z) : Math_round (Fin (IZR z)) = Fin (IZR z).
Proof.
  unfold Math_round. do 2 f_equal. apply Int_part_unique. lra.
Qed.

Lemma Math_pow_2 (y : R) : Math_pow (Fin 2) (Fin y) = Fin (Rpower 2 y).
Proof.
  unfold Math_pow. destruct (Req_dec_T y 0) as [-> | _].
  - now rewrite Rpower_O by lra.
  - destruct (Rlt_dec 0 2) as [_ | H]; [reflexivity | lra].
Qed.

Lemma Rpower_2_pos (y : R) : 0 < Rpower 2 y.
Proof.
  unfold Rpower. apply exp_pos.
Qed.

(** [log2 (2 ^ y) = y]. *)
Lemma log2_Rpower_2 (y : R) : ln (Rpower 2 y) / ln 2 = y.
Proof.
  rewrite ln_Rpower. field. pose proof ln_2_pos. lra.
Qed.

(** The tests of the guard, on a real. *)
Lemma ToBoolean_Fin (x : R) : ToBoolean (Fin x) = true <-> x <> 0.
Proof.
  cbn. destruct (Req_dec_T x 0); split; congruence.
Qed.

Lemma leb_Fin (x y : R) : leb (Fin x) (Fin y) = true <-> x <= y.
Proof.
  cbn. destruct (Rle_dec x y); split; solve [auto | discriminate].
Qed.

Lemma div_Fin (x y : R) : y <> 0 -> div (Fin x) (Fin y) = Fin (x / y).
Proof.
  intros H. cbn. now destruct (Req_dec_T y 0).
Qed.

Lemma log2_Fin (x : R) : 0 < x -> Math_log2 (Fin x) = Fin (ln x / ln 2).
Proof.
  intros H. cbn. now destruct (Rlt_dec 0 x).
Qed.

(** The no-pitch value of the estimator is the number [-1]. *)
Lemma of_float_NO_PITCH : of_float PitchDetection.NO_PITCH = Fin (-1).
Proof.
  unfold of_float.
  change (Prim2SF PitchDetection.NO_PITCH)
    with (S754_finite true 4503599627370496 (-52)).
  cbv iota. cbn [cond_Zopp Z.opp]. apply f_equal.
  change (powerRZ 2 (-52)) with (/ 2 ^ 52). rewrite pow_IZR.
  change (2 ^ Z.of_nat 52)%Z with 4503599627370496%Z.
  change (IZR (-4503599627370496)) with (- IZR 4503599627370496).
  field.
Qed.

End NumberFacts.

(* ================================================================== *)
(** * Part IX. the note mapper *)
(* ================================================================== *)

Module NoteRecognitionFacts.
Import Number NumberFacts NoteRecognition Statements.
Local Open Scope R_scope.

Lemma nearest_bounds (x : R) : - / 2 <= x - IZR (nearest x) < / 2.
Proof.
  unfold nearest. pose proof (Int_part_bounds (x + / 2)). lra.
Qed.

Lemma nearest_IZR (z : Z) : nearest (IZR z) = z.
Proof.
  apply Int_part_unique. lra.
Qed.

Lemma nearest_le (x y : R) : x <= y -> (nearest x <= nearest y)%Z.
Proof.
  intros H. apply Int_part_le. lra.
Qed.

Section PositiveFrequencies.
Variables f r : R.
Hypothesis f_pos : 0 < f.
Hypothesis r_pos : 0 < r.

Lemma exactHalfSteps_Fin : exactHalfStepsFromA4 (Fin f) (Fin r) = Fin (steps f r).
Proof.
  unfold exactHalfStepsFromA4, steps.
  rewrite div_Fin by lra. rewrite log2_Fin; [reflexivity |].
  now apply Rdiv_lt_0_compat.
Qed.

Lemma halfSteps_Fin :
  halfStepsFromA4 (Fin f) (Fin r) = Fin (IZR (nearest (steps f r))).
Proof.
  change (halfStepsFromA4 (Fin f) (Fin r))
    with (Math_round (exactHalfStepsFromA4 (Fin f) (Fin r))).
  now rewrite exactHalfSteps_Fin.
Qed.

Lemma cents_Fin :
  centsOf (Fin f) (Fin r) =
  Fin (IZR (nearest ((steps f r - IZR (nearest (steps f r))) * 100))).
Proof.
  unfold centsOf. rewrite exactHalfSteps_Fin, halfSteps_Fin. reflexivity.
Qed.

Lemma guard_positive : negb (ToBoolean (Fin f)) || leb (Fin f) (Fin 0) = false.
Proof.
  cbn. destruct (Req_dec_T f 0); [lra |]. destruct (Rle_dec f 0); [lra |].
  reflexivity.
Qed.

(** What [noteFromFrequency] returns on a positive frequency, in terms of
    the rounded semitone index. *)
Lemma noteFromFrequency_positive :
  let n := nearest (steps f r) in
  noteFromFrequency (Fin f) (Some (Fin r)) =
  {| note := index NOTE_NAMES (Fin (IZR (Z.rem (n + 57) 12)));
     octave := Num (Fin (IZR ((n + 57) / 12)));
     cents := Num (Fin (IZR (nearest ((steps f r - IZR n) * 100)))) |}.
Proof.
  intros n. unfold noteFromFrequency. cbn [orDefault].
  rewrite guard_positive, cents_Fin, halfSteps_Fin. fold n.
  cbn [add]. rewrite <- plus_IZR.
  rewrite rem_IZR, floor_div_IZR by lia. reflexivity.
Qed.

End PositiveFrequencies.

Lemma index_IZR (a : list string) (k : Z) :
  index a (Fin (IZR k)) =
  if (k <? 0)%Z then Undefined
  else match nth_error a (Z.to_nat k) with
       | Some s => Str s
       | None => Undefined
       end.
Proof.
  unfold index. rewrite Int_part_IZR.
  destruct (Req_dec_T (IZR k) (IZR k)); congruence.
Qed.

(** ** The guard of [noteFromFrequency] *)

Lemma noteFromFrequency_guard (frequency : number) (ref : option number) :
  noteFromFrequency frequency ref = NO_NOTE <->
  negb (ToBoolean frequency) || leb frequency (Fin 0) = true.
Proof.
  unfold noteFromFrequency.
  destruct (negb (ToBoolean frequency) || leb frequency (Fin 0)).
  - tauto.
  - split; [| discriminate]. intros H. apply (f_equal octave) in H.
    discriminate.
Qed.

(** C6, as the code has it.  [noteFromFrequency] returns the no-note value
    exactly when the frequency is [NaN] or at most 0; the no-pitch value [-1]
    of the estimator is such a frequency. *)
Theorem noteFromFrequency_no_note :
  (forall frequency ref,
     noteFromFrequency frequency ref = NO_NOTE <->
     frequency = NaN \/ leb frequency (Fin 0) = true) /\
  (forall ref,
     noteFromFrequency (of_float PitchDetection.NO_PITCH) ref = NO_NOTE).
Proof.
  assert (G : forall frequency ref,
             noteFromFrequency frequency ref = NO_NOTE <->
             frequency = NaN \/ leb frequency (Fin 0) = true).
  { intros frequency ref. rewrite noteFromFrequency_guard.
    destruct frequency as [| | | x]; cbn.
    - intuition.
    - split; [discriminate | intros [H | H]; discriminate].
    - intuition.
    - destruct (Req_dec_T x 0) as [Hx | Hx], (Rle_dec x 0) as [Hle | Hle];
        cbn; try (intuition; fail).
      + lra.
      + split; [discriminate | intros [H | H]; discriminate]. }
  split; [exact G |].
  intros ref. apply G. right. rewrite of_float_NO_PITCH.
  apply leb_Fin. lra.
Qed.

(** C6, as stated, fails on [NaN]: the guard [!frequency] returns the
    no-note value although [NaN <= 0] is false.  [NaN] is what [detectPitch]
    returns on the constant window. *)
Lemma noteFromFrequency_NaN :
  noteFromFrequency NaN (Some (Fin 440)) = NO_NOTE /\
  leb NaN (Fin 0) = false /\
  of_float (PitchDetection.detectPitch PitchDetection.flatWindow 44100) = NaN.
Proof.
  split; [reflexivity |]. split; [reflexivity |].
  unfold of_float.
  replace (PitchDetection.detectPitch PitchDetection.flatWindow 44100)
    with nan by (vm_compute; reflexivity).
  reflexivity.
Qed.

(** ** The reference maps to A4 *)

Lemma steps_same (r : R) : 0 < r -> steps r r = 0.
Proof.
  intros H. unfold steps. replace (r / r) with 1 by (field; lra).
  rewrite ln_1. lra.
Qed.

(** C3. For every positive reference [r], [noteFromFrequency(r, r)] is
    note "A", octave 4, cents 0. *)
Theorem noteFromFrequency_reference (r : R) :
  0 < r ->
  noteFromFrequency (Fin r) (Some (Fin r)) =
  {| note := Str "A"; octave := Num (Fin 4); cents := Num (Fin 0) |}.
Proof.
  intros H. rewrite noteFromFrequency_positive by assumption.
  rewrite steps_same by assumption.
  replace (nearest 0) with 0%Z by (symmetry; apply (nearest_IZR 0)).
  replace ((0 - 0) * 100) with 0 by lra.
  replace (nearest 0) with 0%Z by (symmetry; apply (nearest_IZR 0)).
  change (Z.rem (0 + 57) 12) with 9%Z. change ((0 + 57) / 12)%Z with 4%Z.
  rewrite index_IZR. reflexivity.
Qed.

Lemma noteFromFrequency_reference_witness :
  noteFromFrequency (Fin 440) (Some (Fin 440)) =
  {| note := Str "A"; octave := Num (Fin 4); cents := Num (Fin 0) |}.
Proof.
  apply (noteFromFrequency_reference 440). lra.
Defined.

(** ** The cents bound and the monotone index *)

(** The frequency [y] semitones away from the reference. *)
Lemma steps_of_power (r y : R) : 0 < r -> steps (r * Rpower 2 (y / 12)) r = y.
Proof.
  intros Hr. unfold steps.
  replace (r * Rpower 2 (y / 12) / r) with (Rpower 2 (y / 12)) by (field; lra).
  rewrite log2_Rpower_2. lra.
Qed.

(** In exact arithmetic, for positive [f] and [r], the cents value of
    [noteFromFrequency(f, r)] is an integer in [[-50, 50]]; when [f] lies
    exactly halfway between two semitones (the exact value of line 26 is
    [k + 1/2] for an integer [k]) it is 50 or -50.  (In binary64 the
    quotient [f / r] can underflow and overflow: see
    [noteFromFrequency_quotient_underflow].) *)
Lemma noteFromFrequency_cents_bound (f r : R) :
  0 < f -> 0 < r ->
  exists c : Z,
    cents (noteFromFrequency (Fin f) (Some (Fin r))) = Num (Fin (IZR c)) /\
    (-50 <= c <= 50)%Z /\
    (forall k : Z,
       exactHalfStepsFromA4 (Fin f) (Fin r) = Fin (IZR k + / 2) ->
       c = (-50)%Z \/ c = 50%Z).
Proof.
  intros Hf Hr. rewrite noteFromFrequency_positive by assumption.
  rewrite exactHalfSteps_Fin by assumption.
  cbn [cents]. set (x := steps f r).
  exists (nearest ((x - IZR (nearest x)) * 100)).
  split; [reflexivity |].
  pose proof (nearest_bounds x) as Hd. split.
  - assert (H1 : (nearest (-50) <= nearest ((x - IZR (nearest x)) * 100))%Z)
      by (apply nearest_le; lra).
    assert (H2 : (nearest ((x - IZR (nearest x)) * 100) <= nearest 50)%Z)
      by (apply nearest_le; lra).
    rewrite (nearest_IZR (-50)) in H1. rewrite (nearest_IZR 50) in H2. lia.
  - intros k Hk. injection Hk as Hk. left.
    assert (E : nearest x = (k + 1)%Z).
    { apply Int_part_unique. rewrite plus_IZR. lra. }
    rewrite E, plus_IZR.
    replace ((x - (IZR k + 1)) * 100) with (IZR (-50)) by lra.
    apply nearest_IZR.
Qed.

Lemma noteFromFrequency_cents_bound_witness :
  exists c : Z,
    cents (noteFromFrequency (Fin 450) (Some (Fin 440))) = Num (Fin (IZR c)) /\
    (-50 <= c <= 50)%Z /\
    (forall k : Z,
       exactHalfStepsFromA4 (Fin 450) (Fin 440) = Fin (IZR k + / 2) ->
       c = (-50)%Z \/ c = 50%Z).
Proof.
  apply (noteFromFrequency_cents_bound 450 440); lra.
Defined.

(** Such frequencies exist: half a semitone above the [k]-th semitone of
    any reference the cents value is -50. *)
Lemma cents_at_half_semitone (k : Z) (r : R) :
  0 < r ->
  cents (noteFromFrequency (Fin (r * Rpower 2 ((IZR k + / 2) / 12)))
                           (Some (Fin r))) = Num (Fin (-50)).
Proof.
  intros Hr.
  rewrite noteFromFrequency_positive;
    [| apply Rmult_lt_0_compat; [assumption | apply Rpower_2_pos] | assumption].
  rewrite steps_of_power by assumption. cbn [cents].
  assert (E : nearest (IZR k + / 2) = (k + 1)%Z).
  { apply Int_part_unique. rewrite plus_IZR. lra. }
  rewrite E, plus_IZR.
  replace ((IZR k + / 2 - (IZR k + 1)) * 100) with (IZR (-50)) by lra.
  now rewrite nearest_IZR.
Qed.

Lemma steps_le (f1 f2 r : R) :
  0 < r -> 0 < f1 -> f1 <= f2 -> steps f1 r <= steps f2 r.
Proof.
  intros Hr H1 H12. unfold steps.
  assert (Hq1 : 0 < f1 / r) by now apply Rdiv_lt_0_compat.
  assert (Hq : f1 / r <= f2 / r).
  { unfold Rdiv. apply Rmult_le_compat_r; [| assumption].
    left. now apply Rinv_0_lt_compat. }
  assert (Hln : ln (f1 / r) <= ln (f2 / r)).
  { destruct Hq as [Hq | Hq]; [left; now apply ln_increasing | rewrite Hq; lra]. }
  pose proof ln_2_pos as H2.
  apply Rmult_le_compat_l; [lra |].
  unfold Rdiv. apply Rmult_le_compat_r; [| assumption].
  left. now apply Rinv_0_lt_compat.
Qed.

(** C9. For a fixed positive reference the rounded semitone index is
    monotone: with [0 < f1 <= f2] the index of [f1] is at most that of
    [f2]. *)
Theorem halfStepsFromA4_monotone (f1 f2 r : R) :
  0 < r -> 0 < f1 -> f1 <= f2 ->
  exists n1 n2 : Z,
    halfStepsFromA4 (Fin f1) (Fin r) = Fin (IZR n1) /\
    halfStepsFromA4 (Fin f2) (Fin r) = Fin (IZR n2) /\
    (n1 <= n2)%Z.
Proof.
  intros Hr H1 H12.
  exists (nearest (steps f1 r)), (nearest (steps f2 r)).
  rewrite !halfSteps_Fin by lra.
  split; [reflexivity |]. split; [reflexivity |].
  now apply nearest_le, steps_le.
Qed.

Lemma halfStepsFromA4_monotone_witness :
  exists n1 n2 : Z,
    halfStepsFromA4 (Fin 220) (Fin 440) = Fin (IZR n1) /\
    halfStepsFromA4 (Fin 880) (Fin 440) = Fin (IZR n2) /\
    (n1 <= n2)%Z.
Proof.
  apply (halfStepsFromA4_monotone 220 880 440); lra.
Defined.

(** ** [frequencyFromNote] *)

Lemma indexOf_from_spec (a : list string) (x : string) (i : Z) :
  (0 <= i)%Z ->
  let k := indexOf_from a x i in
  (~ In x a /\ k = (-1)%Z) \/
  (In x a /\ (i <= k < i + Z.of_nat (length a))%Z /\
   nth_error a (Z.to_nat (k - i)) = Some x).
Proof.
  revert i. induction a as [| y a IH]; intros i Hi; cbn.
  - left. tauto.
  - destruct (String.eqb_spec y x) as [-> | Hne].
    + right. split; [now left |]. split; [lia |].
      now rewrite Z.sub_diag.
    + destruct (IH (i + 1)%Z ltac:(lia)) as [[Hn E] | [Hin [Hk Hnth]]].
      * left. split; [| exact E]. intros [H | H]; [congruence | tauto].
      * right. split; [now right |]. split; [lia |].
        replace (Z.to_nat (indexOf_from a x (i + 1) - i))
          with (S (Z.to_nat (indexOf_from a x (i + 1) - (i + 1)))) by lia.
        exact Hnth.
Qed.

Lemma indexOf_NOTE_NAMES (name : string) :
  let i := indexOf NOTE_NAMES name in
  (~ In name NOTE_NAMES /\ i = (-1)%Z) \/
  (In name NOTE_NAMES /\ (0 <= i < 12)%Z /\
   nth_error NOTE_NAMES (Z.to_nat i) = Some name).
Proof.
  pose proof (indexOf_from_spec NOTE_NAMES name 0 ltac:(lia)) as H.
  cbv zeta in H. rewrite Z.sub_0_r in H. exact H.
Qed.

(** The value on a name of the table, a real octave and a real
    reference. *)
Lemma frequencyFromNote_real (name : string) (o r : R) :
  indexOf NOTE_NAMES name <> (-1)%Z ->
  frequencyFromNote name (Fin o) (Some (Fin r)) =
  Ret (Fin (r * Rpower 2
                  ((IZR (indexOf NOTE_NAMES name) + 12 * o - 57) / 12))).
Proof.
  intros Hi. unfold frequencyFromNote. cbn [orDefault].
  destruct (Z.eqb_spec (indexOf NOTE_NAMES name) (-1)) as [E | _];
    [contradiction |].
  cbn [mul add sub neg]. rewrite div_Fin by lra. rewrite Math_pow_2.
  cbn [mul]. do 4 f_equal. lra.
Qed.

(** The same on an integer octave. *)
Lemma frequencyFromNote_Fin (name : string) (o : Z) (r : R) :
  indexOf NOTE_NAMES name <> (-1)%Z ->
  frequencyFromNote name (Fin (IZR o)) (Some (Fin r)) =
  Ret (Fin (r * Rpower 2 (IZR (indexOf NOTE_NAMES name + 12 * o - 57) / 12))).
Proof.
  intros Hi. rewrite frequencyFromNote_real by assumption. do 4 f_equal.
  rewrite minus_IZR, plus_IZR, mult_IZR. reflexivity.
Qed.

(** C7. [frequencyFromNote] throws exactly on the names outside
    [NOTE_NAMES], with the message of line 57; on a name of the table, at
    chromatic index [i], it returns [r * 2 ^ ((i + 12 * octave - 57) / 12)]
    for the octave [o] and the reference [r]. *)
Theorem frequencyFromNote_spec :
  (forall name octave ref,
     (exists msg, frequencyFromNote name octave ref = Throw msg) <->
     ~ In name NOTE_NAMES) /\
  (forall name octave ref,
     ~ In name NOTE_NAMES ->
     frequencyFromNote name octave ref =
     Throw ("Invalid note name: " ++ name)%string) /\
  (forall name (o r : R),
     In name NOTE_NAMES ->
     exists i : Z,
       (0 <= i < 12)%Z /\
       nth_error NOTE_NAMES (Z.to_nat i) = Some name /\
       frequencyFromNote name (Fin o) (Some (Fin r)) =
       Ret (Fin (r * Rpower 2 ((IZR i + 12 * o - 57) / 12)))).
Proof.
  assert (T : forall name octave ref,
             ~ In name NOTE_NAMES ->
             frequencyFromNote name octave ref =
             Throw ("Invalid note name: " ++ name)%string).
  { intros name octave ref Hn. unfold frequencyFromNote.
    destruct (indexOf_NOTE_NAMES name) as [[_ E] | [Hin _]]; [| contradiction].
    cbv zeta in E. now rewrite E. }
  split; [| split; [exact T |]].
  - intros name octave ref. split.
    + intros [msg H] Hin. unfold frequencyFromNote in H.
      destruct (indexOf_NOTE_NAMES name) as [[Hn _] | [_ [Hi _]]];
        [contradiction |].
      cbv zeta in Hi.
      destruct (Z.eqb_spec (indexOf NOTE_NAMES name) (-1)); [lia |].
      discriminate.
    + intros Hn. eexists. now apply T.
  - intros name o r Hin.
    destruct (indexOf_NOTE_NAMES name) as [[Hn _] | [_ [Hi Hnth]]];
      [contradiction |].
    cbv zeta in Hi, Hnth.
    exists (indexOf NOTE_NAMES name).
    split; [exact Hi |]. split; [exact Hnth |].
    apply frequencyFromNote_real. lia.
Qed.

Lemma frequencyFromNote_spec_witness :
  exists i : Z,
    (0 <= i < 12)%Z /\
    nth_error NOTE_NAMES (Z.to_nat i) = Some "A"%string /\
    frequencyFromNote "A" (Fin 4) (Some (Fin 440)) =
    Ret (Fin (440 * Rpower 2 ((IZR i + 12 * 4 - 57) / 12))).
Proof.
  apply (proj2 (proj2 frequencyFromNote_spec) "A"%string 4 440).
  cbn. tauto.
Defined.

(** ** The round trip *)

(** The round trip on a name of the table: octave and cents come back, the
    name is looked up at [(i + 12 * o) % 12], which is negative when
    [i + 12 * o] is negative and not a multiple of 12. *)
Lemma roundTrip_index (name : string) (o : Z) (r : R) :
  In name NOTE_NAMES -> 0 < r ->
  let i := indexOf NOTE_NAMES name in
  roundTrip name (Fin (IZR o)) (Some (Fin r)) =
  Ret {| note := index NOTE_NAMES (Fin (IZR (Z.rem (i + 12 * o) 12)));
         octave := Num (Fin (IZR o));
         cents := Num (Fin 0) |}.
Proof.
  intros Hin Hr i.
  destruct (indexOf_NOTE_NAMES name) as [[Hn _] | [_ [Hi _]]];
    [contradiction |].
  cbv zeta in Hi. fold i in Hi.
  unfold roundTrip. rewrite frequencyFromNote_Fin by (fold i; lia).
  fold i. cbn [bind]. set (n := (i + 12 * o - 57)%Z).
  rewrite noteFromFrequency_positive;
    [| apply Rmult_lt_0_compat; [assumption | apply Rpower_2_pos] | assumption].
  rewrite steps_of_power by assumption. rewrite nearest_IZR.
  replace ((IZR n - IZR n) * 100) with (IZR 0) by lra. rewrite nearest_IZR.
  replace (n + 57)%Z with (o * 12 + i)%Z by lia.
  rewrite Z.div_add_l by lia. rewrite (Z.div_small i 12) by lia.
  rewrite Z.add_0_r.
  replace (o * 12 + i)%Z with (i + 12 * o)%Z by lia. reflexivity.
Qed.

(** The part of C4 that holds: from octave 0 up (and for every [r > 0]) the
    round trip gives the name and the octave back, with cents exactly 0. *)
Lemma roundTrip_from_octave_0 (name : string) (o : Z) (r : R) :
  In name NOTE_NAMES -> 0 < r -> (0 <= o)%Z ->
  roundTrip name (Fin (IZR o)) (Some (Fin r)) =
  Ret {| note := Str name; octave := Num (Fin (IZR o));
         cents := Num (Fin 0) |}.
Proof.
  intros Hin Hr Ho. rewrite roundTrip_index by assumption.
  destruct (indexOf_NOTE_NAMES name) as [[Hn _] | [_ [Hi Hnth]]];
    [contradiction |].
  cbv zeta in Hi, Hnth. set (i := indexOf NOTE_NAMES name) in *.
  rewrite Z.rem_mod_nonneg by lia.
  replace (i + 12 * o)%Z with (i + o * 12)%Z by lia.
  rewrite Z.mod_add by lia. rewrite Z.mod_small by lia.
  rewrite index_IZR. destruct (Z.ltb_spec i 0); [lia |].
  now rewrite Hnth.
Qed.

(** Below octave 0 every name but "C" is lost: the index
    [(i + 12 * o) % 12] is [i - 12], a negative number. *)
Lemma roundTrip_below_octave_0 (name : string) (o : Z) (r : R) :
  In name NOTE_NAMES -> name <> "C"%string -> 0 < r -> (o < 0)%Z ->
  roundTrip name (Fin (IZR o)) (Some (Fin r)) =
  Ret {| note := Undefined; octave := Num (Fin (IZR o));
         cents := Num (Fin 0) |}.
Proof.
  intros Hin HC Hr Ho. rewrite roundTrip_index by assumption.
  destruct (indexOf_NOTE_NAMES name) as [[Hn _] | [_ [Hi Hnth]]];
    [contradiction |].
  cbv zeta in Hi, Hnth. set (i := indexOf NOTE_NAMES name) in *.
  assert (Hi0 : i <> 0%Z).
  { intros E. rewrite E in Hnth. cbn in Hnth. congruence. }
  assert (E : Z.rem (i + 12 * o) 12 = (i - 12)%Z).
  { replace (i + 12 * o)%Z with (- (12 - i + (- o - 1) * 12))%Z by lia.
    rewrite Z.rem_opp_l by lia. rewrite Z.rem_mod_nonneg by lia.
    rewrite Z.mod_add by lia. rewrite Z.mod_small by lia. lia. }
  rewrite E, index_IZR. destruct (Z.ltb_spec (i - 12) 0); [reflexivity | lia].
Qed.

(** C4 at ("C#", -1, 440).  [frequencyFromNote] gives the positive frequency
    [440 * 2 ^ (-68 / 12)] (about 8.66 Hz); [noteFromFrequency] on it gives
    octave -1 and cents 0, but the note index is [(-68 + 57) % 12 = -11] and
    the note is [undefined], not "C#". *)
Theorem roundTrip_C_sharp_minus_1 :
  frequencyFromNote "C#" (Fin (-1)) (Some (Fin 440)) =
    Ret (Fin (440 * Rpower 2 (-68 / 12))) /\
  0 < 440 * Rpower 2 (-68 / 12) /\
  roundTrip "C#" (Fin (-1)) (Some (Fin 440)) =
    Ret {| note := Undefined; octave := Num (Fin (-1));
           cents := Num (Fin 0) |}.
Proof.
  split; [| split].
  - rewrite (frequencyFromNote_Fin "C#" (-1) 440) by (cbv; discriminate).
    reflexivity.
  - apply Rmult_lt_0_compat; [lra | apply Rpower_2_pos].
  - rewrite (roundTrip_index "C#" (-1) 440); [| cbn; tauto | lra].
    cbv zeta. change (indexOf NOTE_NAMES "C#") with 1%Z.
    change (Z.rem (1 + 12 * -1) 12) with (-11)%Z.
    rewrite index_IZR. reflexivity.
Qed.

(** ** The instrument table *)

(** The table of lines 100-139, evaluated. *)
Lemma references_returns :
  exists guitar bass violin ukulele,
    references = Ret [("guitar"%string, guitar); ("bass"%string, bass);
                      ("violin"%string, violin); ("ukulele"%string, ukulele)].
Proof.
  do 4 eexists. reflexivity.
Qed.

(** An identifier that is neither a key of the table nor a property of
    [Object.prototype] gives [null]. *)
Lemma getInstrumentReferences_unrecognised (instrument : string) :
  ~ In instrument ["guitar"; "bass"; "violin"; "ukulele"]%string ->
  ~ In instrument Object_prototype ->
  getInstrumentReferences instrument = Ret None.
Proof.
  intros Hk Hp. unfold getInstrumentReferences.
  destruct references_returns as (g & b & v & u & ->). cbn [bind lookup].
  repeat match goal with
  | |- context [String.eqb ?k instrument] =>
      destruct (String.eqb_spec k instrument) as [E | _];
        [exfalso; apply Hk; rewrite <- E; cbn; tauto |]
  end.
  replace (existsb (String.eqb instrument) Object_prototype) with false;
    [reflexivity |].
  symmetry. apply not_true_is_false. intros H.
  apply existsb_exists in H. destruct H as (k & Hin & E).
  apply String.eqb_eq in E. subst k. contradiction.
Qed.


(** C10. For every identifier that [getInstrumentReferences] finds in its
    table, the k-th frequency of the entry is [frequencyFromNote] of the k-th
    string's note and octave with the reference 440; the function has no
    reference parameter. *)
Theorem getInstrumentReferences_reference_440 (instrument : string)
    (p : InstrumentReference) :
  getInstrumentReferences instrument = Ret (Some (Own p)) ->
  Forall2 fromLabel440 (strings p) (frequencies p).
Proof.
  unfold getInstrumentReferences. intros H.
  destruct references as [table | msg] eqn:E; [| discriminate].
  cbv -[mul div sub add Math_pow IZR] in E. injection E as <-.
  cbn [bind lookup] in H.
  repeat match type of H with
  | context [String.eqb ?k instrument] =>
      destruct (String.eqb k instrument);
        [injection H as <-; cbn [strings frequencies];
         repeat (constructor; [do 2 eexists; split; reflexivity |]);
         constructor |]
  end.
  destruct (existsb _ _); discriminate.
Qed.

Lemma getInstrumentReferences_reference_440_witness :
  exists p,
    getInstrumentReferences "violin" = Ret (Some (Own p)) /\
    Forall2 fromLabel440 (strings p) (frequencies p).
Proof.
  eexists. split; [reflexivity |].
  apply (getInstrumentReferences_reference_440 "violin"). reflexivity.
Defined.

End NoteRecognitionFacts.

(* ================================================================== *)
(** * Part IX bis. [noteFromFrequency] in binary64: the ends of the range *)
(* ================================================================== *)

Module NoteRecognition64Facts.
Import IEEE NoteRecognition64.
Local Open Scope float_scope.

(** With the frequency equal to the reference the quotient is exactly 1,
    its logarithm is [+0] by the standard, and nothing is approximated: the
    result is A4 with 0 cents, as in exact arithmetic. *)
Lemma noteFromFrequency_at_reference (approximation : float -> float) :
  noteFromFrequency approximation 440 (Some 440) =
  {| note := Str "A"; octave := Num 4; cents := Num 0 |} /\
  noteFromFrequency approximation 432 (Some 432) =
  {| note := Str "A"; octave := Num 4; cents := Num 0 |}.
Proof.
  split; vm_compute; reflexivity.
Qed.

(** C5.  The cents are not always in [[-50, 50]].  The smallest positive
    double passes the guard of line 17, but the quotient by 440 underflows
    to 0, [Math.log2(0)] is [-Infinity], so are [exactHalfStepsFromA4] and
    [halfStepsFromA4], their difference is [NaN], and [noteFromFrequency]
    returns the note [undefined], the octave [-Infinity] and the cents
    [NaN].  The same happens when the quotient overflows (1e308 with the
    reference 1e-10): the cents are [NaN].  This holds whatever the
    implementation's approximation of the logarithm is. *)
Theorem noteFromFrequency_quotient_underflow (approximation : float -> float) :
  (0 <? 0x1p-1074) = true /\
  negb (ToBoolean 0x1p-1074) || (0x1p-1074 <=? 0) = false /\
  0x1p-1074 / 440 = 0 /\
  noteFromFrequency approximation 0x1p-1074 (Some 440) =
  {| note := Undefined; octave := Num neg_infinity; cents := Num nan |} /\
  1e308 / 1e-10 = infinity /\
  noteFromFrequency approximation 1e308 (Some 1e-10) =
  {| note := Undefined; octave := Num infinity; cents := Num nan |} /\
  (-50 <=? nan) = false /\ (nan <=? 50) = false.
Proof.
  split; [vm_compute; reflexivity |]. split; [vm_compute; reflexivity |].
  split; [vm_compute; reflexivity |]. split; [vm_compute; reflexivity |].
  split; [vm_compute; reflexivity |]. split; [vm_compute; reflexivity |].
  split; vm_compute; reflexivity.
Qed.

End NoteRecognition64Facts.

(* ================================================================== *)
(** * Part X. more facts about binary64 *)
(* ================================================================== *)

Module IEEEOrder.
Import IEEE IEEEFacts.
Local Open Scope float_scope.

(** [<] on the sign, mantissa and exponent triples is transitive. *)
Lemma SFltb_trans (x y z : spec_float) :
  SFltb x y = true -> SFltb y z = true -> SFltb x z = true.
Proof.
  unfold SFltb.
  destruct x as [sx | sx | | sx mx ex], y as [sy | sy | | sy my ey],
    z as [sz | sz | | sz mz ez]; cbn;
    try discriminate; try reflexivity;
    try (destruct sx, sy, sz; cbn; (discriminate || reflexivity)).
  change (Pos.compare_cont Eq mx my) with (mx ?= my)%positive.
  change (Pos.compare_cont Eq my mz) with (my ?= mz)%positive.
  change (Pos.compare_cont Eq mx mz) with (mx ?= mz)%positive.
  destruct sx, sy, sz; cbn; try (discriminate || reflexivity);
    destruct (Z.compare_spec ex ey), (Z.compare_spec ey ez),
      (Z.compare_spec ex ez);
    try discriminate; try reflexivity; try lia;
    destruct (Pos.compare_spec mx my), (Pos.compare_spec my mz),
      (Pos.compare_spec mx mz);
    cbn; try discriminate; try reflexivity; lia.
Qed.

Lemma SFltb_irrefl (x : spec_float) : SFltb x x = false.
Proof.
  unfold SFltb. destruct x as [s | s | | s m e]; cbn; try reflexivity.
  - now destruct s.
  - change (Pos.compare_cont Eq m m) with (m ?= m)%positive.
    rewrite Z.compare_refl, Pos.compare_refl. now destruct s.
Qed.

Lemma ltb_trans (x y z : float) :
  (x <? y) = true -> (y <? z) = true -> (x <? z) = true.
Proof.
  rewrite !ltb_spec. apply SFltb_trans.
Qed.

Lemma ltb_irrefl (x : float) : (x <? x) = false.
Proof.
  rewrite ltb_spec. apply SFltb_irrefl.
Qed.

(** A finite number minus itself is [+0]. *)
Lemma sub_self (x : float) :
  isNaN x = false -> isInfinite x = false -> x - x = 0.
Proof.
  unfold isNaN, isInfinite. intros Hn Hi. apply Prim2SF_inj.
  rewrite sub_spec. change (Prim2SF 0) with (S754_zero false).
  destruct (Prim2SF x) as [s | s | | s m e]; try discriminate.
  - now destruct s.
  - unfold SF64sub, SFsub. rewrite Z.sub_diag. reflexivity.
Qed.

(** [+0] times [NaN] or an infinity is [NaN]. *)
Lemma zero_mul_nan_or_infinite (t : float) :
  isNaN t || isInfinite t = true -> 0 * t = nan.
Proof.
  unfold isNaN, isInfinite. intros H. apply Prim2SF_inj.
  rewrite mul_spec. change (Prim2SF 0) with (S754_zero false).
  change (Prim2SF nan) with S754_nan.
  now destruct (Prim2SF t).
Qed.

End IEEEOrder.

(* ================================================================== *)
(** * Part XI. the two estimators: peak search, short and silent windows *)
(* ================================================================== *)

Module EstimatorFacts.
Import IEEE IEEEFacts IEEEOrder PitchDetection PitchDetectionFacts.
Import Statements.
Local Open Scope float_scope.

Lemma get_Some_lt (a : list float) (i : Z) (x : float) :
  get a i = Some x -> (0 <= i < Z.of_nat (length a))%Z.
Proof.
  unfold get. destruct (Z.ltb_spec i 0) as [H | H]; [discriminate |].
  intros E. assert (Z.to_nat i < length a)%nat; [| lia].
  apply nth_error_Some. congruence.
Qed.

Lemma get_past_end (a : list float) (i : Z) :
  (Z.of_nat (length a) <= i)%Z -> get a i = None.
Proof.
  intros H. destruct (get a i) as [x |] eqn:E; [| reflexivity].
  apply get_Some_lt in E. lia.
Qed.

Lemma nan_ltb (x : float) : (nan <? x) = false.
Proof.
  rewrite ltb_spec. reflexivity.
Qed.

(** ** The peak search of [detectPitch] *)

(** The loop of lines 54-59 keeps a strict maximum of what it has read. *)
Lemma findPeak_maximum (corr : list float) (steps : nat) :
  forall (period : Z) (best : Z * float),
    let r := findPeak corr steps period best in
    (r = best \/
     ((period <= fst r < period + Z.of_nat steps)%Z /\
      get corr (fst r) = Some (snd r) /\
      (snd best <? snd r) = true)) /\
    (forall p c,
       (period <= p < period + Z.of_nat steps)%Z ->
       get corr p = Some c -> (snd r <? c) = false).
Proof.
  induction steps as [| n IH]; intros period best; cbn zeta.
  - split; [now left |]. intros p c Hp. lia.
  - cbn [findPeak].
    set (best' := match get corr period with
                  | Some c => if snd best <? c then (period, c) else best
                  | None => best
                  end).
    destruct (IH (period + 1)%Z best') as [A B].
    set (r := findPeak corr n (period + 1) best') in *.
    assert (Hb : best' = best \/
                 (exists c, get corr period = Some c /\
                            (snd best <? c) = true /\ best' = (period, c))).
    { unfold best'. destruct (get corr period) as [c |]; [| now left].
      destruct (snd best <? c) eqn:E; [right; eauto | now left]. }
    split.
    + destruct Hb as [Hb | (c & Hg & Hlt & Hb)]; rewrite Hb in A.
      * destruct A as [A | (Hr & Hg & Hlt)]; [now left | right].
        repeat split; try assumption; lia.
      * right. destruct A as [A | (Hr & Hg' & Hlt')].
        -- rewrite A. cbn [fst snd]. repeat split; try assumption; lia.
        -- cbn [snd] in Hlt'. repeat split; try assumption; try lia.
           now apply (ltb_trans _ c).
    + intros p c Hp Hg.
      destruct (Z.eq_dec p period) as [-> | Hne]; [| apply (B p c); [lia | exact Hg]].
      destruct (snd r <? c) eqn:Hrc; [exfalso | reflexivity].
      destruct Hb as [Hb | (c' & Hg' & Hlt & Hb)]; rewrite Hb in A.
      * assert (Hn : (snd best <? c) = false).
        { assert (E : best' = best) by exact Hb. unfold best' in E.
          rewrite Hg in E. destruct (snd best <? c) eqn:F; [| reflexivity].
          exfalso. rewrite <- E in F. cbn [snd] in F.
          rewrite ltb_irrefl in F. discriminate. }
        destruct A as [A | (_ & _ & Hlt)].
        -- rewrite A in Hrc. congruence.
        -- rewrite (ltb_trans _ _ _ Hlt Hrc) in Hn. discriminate.
      * assert (c' = c) by congruence. subst c'.
        destruct A as [A | (_ & _ & Hlt')].
        -- rewrite A in Hrc. cbn [snd] in Hrc. rewrite ltb_irrefl in Hrc.
           discriminate.
        -- cbn [snd] in Hlt'. pose proof (ltb_trans _ _ _ Hlt' Hrc) as F.
           rewrite ltb_irrefl in F. discriminate.
Qed.

(** X1. What the peak search of [detectPitch] returns, for search bounds
    [lo = minPeriod] and [hi = maxPeriod <= 2^53]: either nothing
    ([bestPeriod = -1], [bestCorrelation = 0]) or a lag within [[lo, hi)] and
    within the array, with [bestCorrelation] the correlation at that lag and
    positive; and no correlation read in the range is greater than
    [bestCorrelation]. *)
Theorem bestPeak_maximum (corr : list float) (sampleRate : float) (lo hi : Z) :
  to_Z (Math_floor (sampleRate / MAX_FREQUENCY)) = Some lo ->
  to_Z (Math_ceil (sampleRate / MIN_FREQUENCY)) = Some hi ->
  (hi <= 2 ^ 53)%Z ->
  let bestPeriod := fst (bestPeak corr sampleRate) in
  let bestCorrelation := snd (bestPeak corr sampleRate) in
  ((bestPeriod = (-1)%Z /\ bestCorrelation = 0) \/
   ((lo <= bestPeriod < hi)%Z /\
    (0 <= bestPeriod < Z.of_nat (length corr))%Z /\
    get corr bestPeriod = Some bestCorrelation /\
    (0 <? bestCorrelation) = true)) /\
  (forall p c,
     (lo <= p < hi)%Z -> get corr p = Some c ->
     (bestCorrelation <? c) = false).
Proof.
  intros Hlo Hhi _. cbv zeta. unfold bestPeak, searchSteps.
  rewrite Hlo, Hhi.
  destruct (findPeak_maximum corr (Z.to_nat (hi - lo)) lo ((-1)%Z, 0))
    as [A B].
  cbv zeta in A, B.
  set (r := findPeak corr (Z.to_nat (hi - lo)) lo ((-1)%Z, 0)) in *.
  split.
  - destruct A as [A | (Hr & Hg & Hlt)].
    + left. now rewrite A.
    + right. repeat split; try assumption; try lia;
        apply (get_Some_lt _ _ _ Hg).
  - intros p c Hp Hg. apply (B p c); [lia | exact Hg].
Qed.

Lemma bestPeak_maximum_witness :
  let corr := [1; 0.5; 0.25; 0.75; 0.5] in
  let bestPeriod := fst (bestPeak corr 6000) in
  let bestCorrelation := snd (bestPeak corr 6000) in
  ((bestPeriod = (-1)%Z /\ bestCorrelation = 0) \/
   ((4 <= bestPeriod < 120)%Z /\
    (0 <= bestPeriod < Z.of_nat (length corr))%Z /\
    get corr bestPeriod = Some bestCorrelation /\
    (0 <? bestCorrelation) = true)) /\
  (forall p c,
     (4 <= p < 120)%Z -> get corr p = Some c ->
     (bestCorrelation <? c) = false).
Proof.
  apply (bestPeak_maximum [1; 0.5; 0.25; 0.75; 0.5] 6000 4 120);
    vm_compute; [reflexivity | reflexivity | discriminate].
Defined.

(** ** Windows shorter than the shortest period *)

Lemma findPeak_none (corr : list float) (steps : nat) :
  forall (period : Z) (best : Z * float),
    (Z.of_nat (length corr) <= period)%Z ->
    findPeak corr steps period best = best.
Proof.
  induction steps as [| n IH]; intros period best H; cbn.
  - reflexivity.
  - rewrite get_past_end by assumption. apply IH. lia.
Qed.

Lemma correlations_length (buffer : list float) :
  length (correlations buffer) = length buffer.
Proof.
  unfold correlations. now rewrite length_map, length_seq.
Qed.

(** X2. On a window with at most [minPeriod = floor(sampleRate / 1500)]
    samples, at a sample rate with [maxPeriod <= 2^53], [detectPitch] finds
    no peak and never returns a detected pitch: the result is the no-pitch
    value -1 or [sampleRate / -1]. *)
Theorem detectPitch_short_window (buffer : list float) (sampleRate : float)
    (lo : Z) :
  searchEnds sampleRate ->
  to_Z (Math_floor (sampleRate / MAX_FREQUENCY)) = Some lo ->
  (Z.of_nat (length buffer) <= lo)%Z ->
  detectPitch buffer sampleRate = NO_PITCH \/
  detectPitch buffer sampleRate = sampleRate / -1.
Proof.
  intros _ Hlo Hlen. unfold detectPitch.
  destruct (signalEnergy buffer <? 0.001); [now left |].
  assert (E : bestPeak (correlations buffer) sampleRate = ((-1)%Z, 0)).
  { unfold bestPeak, searchSteps. rewrite Hlo.
    destruct (to_Z (Math_ceil (sampleRate / MIN_FREQUENCY))) as [hi |].
    - apply findPeak_none. rewrite correlations_length. exact Hlen.
    - reflexivity. }
  rewrite E.
  destruct (normalizedCorrelation (correlations buffer) 0 <? THRESHOLD);
    [now left | right].
  unfold refinedPeriod, interior. reflexivity.
Qed.

Lemma detectPitch_short_window_witness :
  detectPitch (repeat 0.5 29) 44100 = NO_PITCH \/
  detectPitch (repeat 0.5 29) 44100 = 44100 / -1.
Proof.
  apply (detectPitch_short_window (repeat 0.5 29) 44100 29);
    vm_compute; [reflexivity | reflexivity | discriminate].
Defined.

(** X3. On a window of zeros (of either sign) that is not empty
    [detectPitch] returns the no-pitch value, whatever the sample rate. *)
Theorem detectPitch_silent_window (buffer : list float) (sampleRate : float) :
  buffer <> [] ->
  (Z.of_nat (length buffer) < 2 ^ 53)%Z ->
  Forall (fun x => (x =? 0) = true) buffer ->
  detectPitch buffer sampleRate = NO_PITCH.
Proof.
  intros Hne Hlen Hz. apply energy_gate. unfold signalEnergy.
  rewrite sum_of_squares_zeros by assumption.
  apply zero_div_positive, of_Z_positive.
  destruct buffer; [contradiction | cbn [length] in *; lia].
Qed.

Lemma detectPitch_silent_window_witness :
  detectPitch [0; -0; 0; 0] 48000 = NO_PITCH.
Proof.
  apply (detectPitch_silent_window [0; -0; 0; 0] 48000).
  - discriminate.
  - vm_compute. reflexivity.
  - repeat constructor.
Defined.

(** ** [detectPitchYIN] on short windows *)

Lemma cumulative_length (ds : list float) :
  forall tau runningSum, length (cumulative ds tau runningSum) = length ds.
Proof.
  induction ds as [| d ds IH]; intros tau runningSum; cbn; [| rewrite IH];
    reflexivity.
Qed.

Lemma yinBuffer_length (buffer : list float) :
  length (yinBuffer buffer) = Nat.div2 (length buffer).
Proof.
  unfold yinBuffer, normalise, differenceFunction.
  destruct (Nat.div2 (length buffer)) as [| h]; [reflexivity |].
  cbn [seq map length]. now rewrite cumulative_length, length_map, length_seq.
Qed.

(** Past the end of [yinBuffer] every read is [undefined] and the search
    changes nothing. *)
Lemma yinSearch_none (yin : list float) (steps : nat) :
  forall (tau : Z) (best : Z * float),
    (Z.of_nat (length yin) <= tau)%Z ->
    yinSearch yin steps tau best = best.
Proof.
  induction steps as [| n IH]; intros tau best H; cbn [yinSearch].
  - reflexivity.
  - rewrite get_past_end by assumption. cbn [ToNumber].
    rewrite !nan_ltb. apply IH. lia.
Qed.

Lemma yinSearch_nil (steps : nat) :
  forall (tau : Z) (best : Z * float), yinSearch [] steps tau best = best.
Proof.
  induction steps as [| n IH]; intros tau best; cbn [yinSearch].
  - reflexivity.
  - replace (get [] tau) with (@None float).
    + cbn [ToNumber]. rewrite !nan_ltb. apply IH.
    + unfold get. destruct (tau <? 0)%Z; [reflexivity |].
      now destruct (Z.to_nat tau).
Qed.

(** X4. On the empty window and on a window of one sample
    [detectPitchYIN] returns the no-pitch value, at every sample rate with
    [maxPeriod <= 2^53]: [yinBuffer] has length 0 and [minTau] stays -1. *)
Theorem detectPitchYIN_empty_window (buffer : list float) (sampleRate : float) :
  searchEnds sampleRate ->
  (length buffer <= 1)%nat ->
  detectPitchYIN buffer sampleRate = NO_PITCH.
Proof.
  intros _ H. unfold detectPitchYIN.
  assert (E : yinBuffer buffer = []).
  { destruct buffer as [| a [| b l]]; [reflexivity | reflexivity |].
    cbn [length] in H. lia. }
  rewrite E. destruct (searchSteps _ _) as [steps lo].
  rewrite yinSearch_nil. reflexivity.
Qed.

Lemma detectPitchYIN_empty_window_witness :
  detectPitchYIN [] 44100 = NO_PITCH.
Proof.
  apply (detectPitchYIN_empty_window [] 44100);
    [vm_compute; reflexivity | cbn; lia].
Defined.

(** X5. On a window of at most [2 * minPeriod + 1] samples, with
    [minPeriod = floor(sampleRate / 1500)] and [maxPeriod <= 2^53],
    [detectPitchYIN] returns the no-pitch value: no lag of the search range
    is inside [yinBuffer]. *)
Theorem detectPitchYIN_short_window (buffer : list float) (sampleRate : float)
    (lo : Z) :
  searchEnds sampleRate ->
  to_Z (Math_floor (sampleRate / MAX_FREQUENCY)) = Some lo ->
  (Z.of_nat (length buffer) <= 2 * lo + 1)%Z ->
  detectPitchYIN buffer sampleRate = NO_PITCH.
Proof.
  intros _ Hlo Hlen. unfold detectPitchYIN, searchSteps. rewrite Hlo.
  assert (Hh : (Z.of_nat (length (yinBuffer buffer)) <= lo)%Z).
  { rewrite yinBuffer_length.
    pose proof (Nat.div2_odd (length buffer)) as E.
    destruct (Nat.odd (length buffer)); cbn [Nat.b2n] in E; lia. }
  destruct (to_Z (Math_ceil (sampleRate / MIN_FREQUENCY))) as [hi |].
  - rewrite yinSearch_none by exact Hh. reflexivity.
  - reflexivity.
Qed.

Lemma detectPitchYIN_short_window_witness :
  detectPitchYIN (squareWave 59 0) 44100 = NO_PITCH.
Proof.
  apply (detectPitchYIN_short_window (squareWave 59 0) 44100 29);
    vm_compute; [reflexivity | reflexivity | discriminate].
Defined.

(** ** [detectPitchYIN] on constant windows *)

Lemma skipn_repeat_const (c : float) (k n : nat) :
  skipn k (repeat c n) = repeat c (n - k).
Proof.
  revert n. induction k as [| k IH]; intros n.
  - now rewrite Nat.sub_0_r.
  - destruct n as [| n]; [reflexivity | cbn; apply IH].
Qed.

Section ConstantWindow.
Variable c : float.
Hypothesis c_not_NaN : isNaN c = false.
Hypothesis c_not_infinite : isInfinite c = false.

(** Every difference is [c - c = +0], and so is every rounded partial sum. *)
Lemma difference_constant (n : nat) :
  forall a b, difference n (repeat c a) (repeat c b) 0 = 0.
Proof.
  induction n as [| n IH]; intros a b.
  - now destruct a, b.
  - destruct a as [| a]; [reflexivity |]. destruct b as [| b]; [reflexivity |].
    cbn [repeat difference]. rewrite sub_self by assumption.
    change (fround (0 + 0 * 0)) with 0. apply IH.
Qed.

Lemma differenceFunction_constant (n : nat) :
  differenceFunction (repeat c n) = repeat 0 (Nat.div2 n).
Proof.
  unfold differenceFunction. rewrite repeat_length.
  generalize (Nat.div2 n) at 1 as m. generalize 0%nat as start.
  induction (Nat.div2 n) as [| h IH]; intros start m; [reflexivity |].
  cbn [seq map repeat]. rewrite skipn_repeat_const, difference_constant.
  f_equal. apply IH.
Qed.

End ConstantWindow.

(** The running sum stays [+0], the quotient [tau / 0] is [NaN] or an
    infinity, and [0] times it is [NaN]. *)
Lemma cumulative_zeros (h : nat) :
  forall tau, cumulative (repeat 0 h) tau 0 = repeat nan h.
Proof.
  induction h as [| h IH]; intros tau; [reflexivity |].
  cbn [repeat cumulative]. change (0 + 0) with 0.
  rewrite zero_mul_nan_or_infinite by (apply div_by_zero; reflexivity).
  change (fround nan) with nan. f_equal. apply IH.
Qed.

Lemma flat_one_nans (h : nat) : flat (1 :: repeat nan h).
Proof.
  intros i. unfold get. destruct (i <? 0)%Z; [now right |].
  destruct (Z.to_nat i) as [| k]; [now left | right]. cbn [nth_error].
  destruct (nth_error (repeat nan h) k) as [x |] eqn:E; [| reflexivity].
  apply nth_error_In, repeat_spec in E. now subst x.
Qed.

Lemma flat_nil : flat [].
Proof.
  intros i. right. unfold get. destruct (i <? 0)%Z; [reflexivity |].
  now destruct (Z.to_nat i).
Qed.

(** On such a [yinBuffer] the search never meets the threshold: [minVal]
    ends as 1000 with [minTau = -1], or as 1. *)
Lemma yinSearch_flat (yin : list float) (steps : nat) :
  flat yin ->
  forall (tau : Z) (best : Z * float),
    snd best = 1000 \/ snd best = 1 ->
    yinSearch yin steps tau best = best \/
    snd (yinSearch yin steps tau best) = 1.
Proof.
  intros Hf. induction steps as [| n IH]; intros tau best Hb; cbn [yinSearch].
  - now left.
  - destruct (Hf tau) as [E | E]; rewrite E.
    + change (1 <? YIN_THRESHOLD) with false. cbv iota.
      destruct Hb as [Hb | Hb]; rewrite Hb.
      * change (1 <? 1000) with true. cbv iota.
        destruct (IH (tau + 1)%Z (tau, 1)) as [H | H]; [now right | |].
        -- right. now rewrite H.
        -- now right.
      * change (1 <? 1) with false. cbv iota. apply IH. now right.
    + rewrite !nan_ltb. apply IH. exact Hb.
Qed.

(** X6. On a constant window of a finite value, a silent one among them,
    [detectPitchYIN] returns the no-pitch value, whatever the length, at
    every sample rate with [maxPeriod <= 2^53]. *)
Theorem detectPitchYIN_constant_window (c : float) (n : nat)
    (sampleRate : float) :
  searchEnds sampleRate ->
  isNaN c = false -> isInfinite c = false ->
  detectPitchYIN (repeat c n) sampleRate = NO_PITCH.
Proof.
  intros _ Hn Hi. unfold detectPitchYIN, yinBuffer.
  rewrite differenceFunction_constant by assumption.
  assert (Hf : flat (normalise (repeat 0 (Nat.div2 n)))).
  { destruct (Nat.div2 n) as [| h]; [apply flat_nil |].
    cbn [repeat normalise]. rewrite cumulative_zeros. apply flat_one_nans. }
  destruct (searchSteps _ _) as [steps lo].
  destruct (yinSearch_flat _ steps Hf lo ((-1)%Z, 1000)) as [E | E];
    [now left | rewrite E; reflexivity |].
  destruct (yinSearch _ steps lo _) as [minTau minVal]. cbn [snd] in E.
  rewrite E. change (YIN_THRESHOLD <=? 1) with true.
  now rewrite orb_true_r.
Qed.

Lemma detectPitchYIN_constant_window_witness :
  detectPitchYIN (repeat 0.5 1024) 44100 = NO_PITCH.
Proof.
  apply (detectPitchYIN_constant_window 0.5 1024 44100);
    [vm_compute; reflexivity | reflexivity | reflexivity].
Defined.

End EstimatorFacts.

(* ================================================================== *)
(** * Part XII. the note mapper: scale, octaves, nearest note *)
(* ================================================================== *)

Module NoteMapperFacts.
Import Number NumberFacts NoteRecognition Statements NoteRecognitionFacts.
Local Open Scope R_scope.

Lemma nearest_add_IZR (x : R) (z : Z) : nearest (x + IZR z) = (nearest x + z)%Z.
Proof.
  unfold nearest. apply Int_part_unique. rewrite plus_IZR.
  pose proof (Int_part_bounds (x + / 2)). lra.
Qed.

Lemma steps_scale (k f r : R) : 0 < k -> 0 < r -> steps (k * f) (k * r) = steps f r.
Proof.
  intros Hk Hr. unfold steps. f_equal. f_equal. f_equal. field. lra.
Qed.

Lemma steps_double (f r : R) : 0 < f -> 0 < r -> steps (2 * f) r = steps f r + 12.
Proof.
  intros Hf Hr. unfold steps.
  replace (2 * f / r) with (2 * (f / r)) by (field; lra).
  rewrite ln_mult; [| lra | now apply Rdiv_lt_0_compat].
  pose proof ln_2_pos. field. lra.
Qed.

(** The frequency of C0, the lowest note with a name. *)
Lemma steps_from_C0 (f r : R) :
  0 < r -> r * Rpower 2 (-57 / 12) <= f -> -57 <= steps f r.
Proof.
  intros Hr Hf. rewrite <- (steps_of_power r (-57)) by assumption.
  apply steps_le; try assumption.
  apply Rmult_lt_0_compat; [assumption | apply Rpower_2_pos].
Qed.

Lemma nearest_from_C0 (f r : R) :
  0 < r -> r * Rpower 2 (-57 / 12) <= f -> (0 <= nearest (steps f r) + 57)%Z.
Proof.
  intros Hr Hf. pose proof (steps_from_C0 f r Hr Hf) as H.
  apply nearest_le in H. rewrite (nearest_IZR (-57)) in H. lia.
Qed.

Lemma positive_from_C0 (f r : R) :
  0 < r -> r * Rpower 2 (-57 / 12) <= f -> 0 < f.
Proof.
  intros Hr Hf.
  assert (0 < r * Rpower 2 (-57 / 12))
    by (apply Rmult_lt_0_compat; [assumption | apply Rpower_2_pos]).
  lra.
Qed.

(** X7. [noteFromFrequency] depends on the ratio of its arguments only:
    scaling the frequency and a positive reference by the same positive
    factor changes nothing. *)
Theorem noteFromFrequency_scale (k f r : R) :
  0 < k -> 0 < r ->
  noteFromFrequency (Fin (k * f)) (Some (Fin (k * r))) =
  noteFromFrequency (Fin f) (Some (Fin r)).
Proof.
  intros Hk Hr. destruct (Rlt_dec 0 f) as [Hf | Hf].
  - rewrite !noteFromFrequency_positive;
      try assumption; try (apply Rmult_lt_0_compat; assumption).
    now rewrite steps_scale.
  - assert (Hkf : k * f <= 0).
    { apply Rnot_lt_le in Hf. rewrite <- (Rmult_0_r k).
      apply Rmult_le_compat_l; lra. }
    transitivity NO_NOTE; [| symmetry]; apply noteFromFrequency_guard;
      apply orb_true_iff; right; apply leb_Fin; lra.
Qed.

Lemma noteFromFrequency_scale_witness :
  noteFromFrequency (Fin (2 * 100)) (Some (Fin (2 * 220))) =
  noteFromFrequency (Fin 100) (Some (Fin 220)).
Proof.
  apply (noteFromFrequency_scale 2 100 220); lra.
Defined.

(** ** [frequencyFromNote] *)

Lemma In_indexOf (name : string) :
  In name NOTE_NAMES ->
  (0 <= indexOf NOTE_NAMES name < 12)%Z /\
  nth_error NOTE_NAMES (Z.to_nat (indexOf NOTE_NAMES name)) = Some name.
Proof.
  intros Hin.
  destruct (indexOf_NOTE_NAMES name) as [[Hn _] | [_ H]]; [contradiction |].
  exact H.
Qed.

(** X11. For octaves from -100 to 100 and a reference from 1 Hz to
    100 kHz (no product comes near the ends of binary64) the frequencies
    follow the order of the notes: a note lower in the scale
    ([i1 + 12 * o1 < i2 + 12 * o2] for the chromatic indices and octaves) has
    the lower frequency, and every frequency is positive. *)
Theorem frequencyFromNote_increasing (name1 name2 : string) (o1 o2 : Z)
    (r : R) :
  In name1 NOTE_NAMES -> In name2 NOTE_NAMES ->
  (-100 <= o1 <= 100)%Z -> (-100 <= o2 <= 100)%Z -> 1 <= r <= 100000 ->
  (indexOf NOTE_NAMES name1 + 12 * o1 < indexOf NOTE_NAMES name2 + 12 * o2)%Z ->
  exists x1 x2 : R,
    frequencyFromNote name1 (Fin (IZR o1)) (Some (Fin r)) = Ret (Fin x1) /\
    frequencyFromNote name2 (Fin (IZR o2)) (Some (Fin r)) = Ret (Fin x2) /\
    0 < x1 < x2.
Proof.
  intros H1 H2 _ _ [Hr _] Hlt.
  assert (0 < r) by lra.
  destruct (In_indexOf name1 H1) as [Hi1 _], (In_indexOf name2 H2) as [Hi2 _].
  do 2 eexists. split; [apply frequencyFromNote_Fin; lia |].
  split; [apply frequencyFromNote_Fin; lia |]. split.
  - apply Rmult_lt_0_compat; [assumption | apply Rpower_2_pos].
  - apply Rmult_lt_compat_l; [assumption |]. apply Rpower_lt; [lra |].
    apply Rmult_lt_compat_r; [lra |]. apply IZR_lt. lia.
Qed.

Lemma frequencyFromNote_increasing_witness :
  exists x1 x2 : R,
    frequencyFromNote "B" (Fin (IZR 3)) (Some (Fin 440)) = Ret (Fin x1) /\
    frequencyFromNote "C" (Fin (IZR 4)) (Some (Fin 440)) = Ret (Fin x2) /\
    0 < x1 < x2.
Proof.
  apply (frequencyFromNote_increasing "B" "C" 3 4 440);
    [cbn; tauto | cbn; tauto | lia | lia | lra | vm_compute; reflexivity].
Defined.

(** ** The round trip, for every octave *)

(** X12. [noteFromFrequency(frequencyFromNote(name, o, r), r)] on a name of
    the table, an octave [o] from -100 to 100 and a reference from 1 Hz to
    100 kHz (no product comes near the ends of binary64): octave [o] and
    cents 0 always come back; the name comes back when [o >= 0] or the name
    is "C", and is [undefined] otherwise. *)
Theorem roundTrip_every_octave (name : string) (o : Z) (r : R) :
  In name NOTE_NAMES -> (-100 <= o <= 100)%Z -> 1 <= r <= 100000 ->
  roundTrip name (Fin (IZR o)) (Some (Fin r)) =
  Ret {| note := if (0 <=? o)%Z || String.eqb name "C" then Str name
                 else Undefined;
         octave := Num (Fin (IZR o));
         cents := Num (Fin 0) |}.
Proof.
  intros Hin _ [Hr _]. assert (0 < r) by lra.
  destruct (Z.leb_spec 0 o) as [Ho | Ho]; cbn [orb].
  - now apply roundTrip_from_octave_0.
  - destruct (String.eqb_spec name "C") as [-> | HC].
    + rewrite roundTrip_index by assumption. cbv zeta.
      change (indexOf NOTE_NAMES "C") with 0%Z.
      replace (0 + 12 * o)%Z with (o * 12)%Z by lia.
      rewrite Z.rem_mul by lia. rewrite index_IZR. reflexivity.
    + now apply roundTrip_below_octave_0.
Qed.

Lemma roundTrip_every_octave_witness :
  roundTrip "C" (Fin (IZR (-1))) (Some (Fin 440)) =
  Ret {| note := if (0 <=? -1)%Z || String.eqb "C" "C" then Str "C"
                 else Undefined;
         octave := Num (Fin (IZR (-1)));
         cents := Num (Fin 0) |}.
Proof.
  apply (roundTrip_every_octave "C" (-1) 440); [cbn; tauto | lia | lra].
Defined.

(** ** [getClosestNote] *)

Lemma index_Str (a : list string) (x : number) (s : string) :
  index a x = Str s -> In s a.
Proof.
  unfold index. destruct x as [| | | y]; try discriminate.
  destruct (Req_dec_T y (IZR (Int_part y))); [| discriminate].
  destruct (Int_part y <? 0)%Z; [discriminate |].
  destruct (nth_error a (Z.to_nat (Int_part y))) as [t |] eqn:E;
    [| discriminate].
  intros [= ->]. exact (nth_error_In _ _ E).
Qed.

(** The shapes of a [noteFromFrequency] result. *)
Lemma noteFromFrequency_shape (frequency : number) (ref : option number) :
  let r := noteFromFrequency frequency ref in
  note r = Null \/ note r = Undefined \/
  exists name o, note r = Str name /\ In name NOTE_NAMES /\ octave r = Num o.
Proof.
  cbv zeta. unfold noteFromFrequency.
  destruct (negb (ToBoolean frequency) || leb frequency (Fin 0));
    [now left | right]. cbn [note octave].
  destruct (index NOTE_NAMES _) as [| | s | n] eqn:E.
  - unfold index in E.
    destruct (rem _ _) as [| | | y]; try discriminate.
    destruct (Req_dec_T _ _); [| discriminate].
    destruct (_ <? 0)%Z; [discriminate |].
    destruct (nth_error _ _); discriminate.
  - now left.
  - right. exists s. eexists. split; [reflexivity |].
    split; [exact (index_Str _ _ _ E) | reflexivity].
  - unfold index in E.
    destruct (rem _ _) as [| | | y]; try discriminate.
    destruct (Req_dec_T _ _); [| discriminate].
    destruct (_ <? 0)%Z; [discriminate |].
    destruct (nth_error _ _); discriminate.
Qed.

Lemma frequencyFromNote_returns (name : string) (o : number)
    (ref : option number) :
  In name NOTE_NAMES -> exists x, frequencyFromNote name o ref = Ret x.
Proof.
  intros Hin. destruct (In_indexOf name Hin) as [Hi _].
  unfold frequencyFromNote.
  destruct (Z.eqb_spec (indexOf NOTE_NAMES name) (-1)); [lia | eauto].
Qed.

(** X13. [getClosestNote] never throws, whatever its arguments: the note
    it hands to [frequencyFromNote] is always a name of the table.  On [NaN]
    and on a frequency that is at most 0 it returns [null]. *)
Theorem getClosestNote_total :
  (forall frequency ref, exists v, getClosestNote frequency ref = Ret v) /\
  (forall frequency ref,
     frequency = NaN \/ leb frequency (Fin 0) = true ->
     getClosestNote frequency ref = Ret None).
Proof.
  split.
  - intros frequency ref. unfold getClosestNote.
    destruct (noteFromFrequency_shape frequency (Some (orDefault ref)))
      as [E | [E | (name & o & E & Hin & Eo)]]; cbv zeta in *; rewrite E.
    + cbn. eauto.
    + cbn. eauto.
    + cbn [truthy]. destruct (negb (name =? "")%string); cbn [negb].
      * rewrite Eo.
        destruct (frequencyFromNote_returns name o (Some (orDefault ref)) Hin)
          as [x ->].
        cbn [bind]. eauto.
      * eauto.
  - intros frequency ref H. unfold getClosestNote.
    assert (E : noteFromFrequency frequency (Some (orDefault ref)) = NO_NOTE).
    { apply noteFromFrequency_guard. destruct H as [-> | H]; [reflexivity |].
      rewrite H. apply orb_true_r. }
    rewrite E. reflexivity.
Qed.

Lemma NoDup_NOTE_NAMES : NoDup NOTE_NAMES.
Proof.
  unfold NOTE_NAMES.
  repeat (constructor; [cbn; intuition discriminate |]). constructor.
Qed.

Lemma indexOf_from_nth (a : list string) :
  forall (k : nat) (x : string) (j : Z),
    NoDup a -> nth_error a k = Some x ->
    indexOf_from a x j = (j + Z.of_nat k)%Z.
Proof.
  induction a as [| y a IH]; intros k x j Hnd Hk.
  - now destruct k.
  - inversion Hnd as [| ? ? Hy Ha]; subst. destruct k as [| k]; cbn in *.
    + injection Hk as ->. rewrite String.eqb_refl. lia.
    + destruct (String.eqb_spec y x) as [-> | _].
      * exfalso. apply Hy. exact (nth_error_In _ _ Hk).
      * rewrite (IH k x (j + 1)%Z Ha Hk). lia.
Qed.

(** The frequency with a given number of semitones. *)
Lemma frequency_of_steps (f r : R) :
  0 < f -> 0 < r -> r * Rpower 2 (steps f r / 12) = f.
Proof.
  intros Hf Hr. unfold steps, Rpower. pose proof ln_2_pos.
  replace (12 * (ln (f / r) / ln 2) / 12 * ln 2) with (ln (f / r))
    by (field; lra).
  rewrite exp_ln by (now apply Rdiv_lt_0_compat). field. lra.
Qed.

Lemma cents_range (x : R) :
  (-50 <= nearest ((x - IZR (nearest x)) * 100) <= 50)%Z.
Proof.
  pose proof (nearest_bounds x) as Hd.
  assert (H1 : (nearest (-50) <= nearest ((x - IZR (nearest x)) * 100))%Z)
    by (apply nearest_le; lra).
  assert (H2 : (nearest ((x - IZR (nearest x)) * 100) <= nearest 50)%Z)
    by (apply nearest_le; lra).
  rewrite (nearest_IZR (-50)) in H1. rewrite (nearest_IZR 50) in H2. lia.
Qed.

(** The note of a frequency at or above C0. *)
Lemma noteFromFrequency_from_C0 (f r : R) :
  0 < r -> r * Rpower 2 (-57 / 12) <= f ->
  let n := nearest (steps f r) in
  exists name : string,
    In name NOTE_NAMES /\
    indexOf NOTE_NAMES name = ((n + 57) mod 12)%Z /\
    noteFromFrequency (Fin f) (Some (Fin r)) =
    {| note := Str name;
       octave := Num (Fin (IZR ((n + 57) / 12)));
       cents := Num (Fin (IZR (nearest ((steps f r - IZR n) * 100)))) |}.
Proof.
  intros Hr Hf n. pose proof (positive_from_C0 f r Hr Hf) as Hpos.
  pose proof (nearest_from_C0 f r Hr Hf) as Hn. fold n in Hn.
  rewrite noteFromFrequency_positive by assumption. fold n.
  rewrite Z.rem_mod_nonneg by lia.
  pose proof (Z.mod_pos_bound (n + 57) 12 ltac:(lia)) as Hi.
  set (i := ((n + 57) mod 12)%Z) in *.
  destruct (nth_error NOTE_NAMES (Z.to_nat i)) as [name |] eqn:E.
  - exists name. split; [exact (nth_error_In _ _ E) |]. split.
    + unfold indexOf.
      rewrite (indexOf_from_nth _ _ _ 0 NoDup_NOTE_NAMES E). lia.
    + rewrite index_IZR. destruct (Z.ltb_spec i 0); [lia |]. now rewrite E.
  - apply nth_error_None in E. cbn [NOTE_NAMES length] in E. lia.
Qed.

(** A frequency at least [y] semitones from the reference, and one at
    most [y] semitones from it. *)
Lemma steps_lower (f r y : R) :
  0 < r -> r * Rpower 2 (y / 12) <= f -> y <= steps f r.
Proof.
  intros Hr Hf. rewrite <- (steps_of_power r y) by assumption.
  apply steps_le; try assumption.
  apply Rmult_lt_0_compat; [assumption | apply Rpower_2_pos].
Qed.

Lemma steps_upper (f r y : R) :
  0 < f -> 0 < r -> f <= r * Rpower 2 (y / 12) -> steps f r <= y.
Proof.
  intros Hf Hr H. rewrite <- (steps_of_power r y) by assumption.
  now apply steps_le.
Qed.

Lemma NOTE_NAMES_truthy (name : string) :
  In name NOTE_NAMES -> truthy (Str name) = true.
Proof.
  cbn. intuition subst; reflexivity.
Qed.

(** Within 49 cents of the frequency [e] of a note, in semitones from the
    reference. *)
Lemma within_49_cents (name : string) (o : Z) (f r e : R) :
  In name NOTE_NAMES -> 0 < r ->
  frequencyFromNote name (Fin (IZR o)) (Some (Fin r)) = Ret (Fin e) ->
  e * Rpower 2 (-49 / 1200) <= f <= e * Rpower 2 (49 / 1200) ->
  let h := (indexOf NOTE_NAMES name + 12 * o - 57)%Z in
  0 < f /\ IZR h - 49 / 100 <= steps f r <= IZR h + 49 / 100.
Proof.
  intros Hin Hr He [Hlo Hhi] h.
  destruct (In_indexOf name Hin) as [Hi _].
  rewrite frequencyFromNote_Fin in He by lia. fold h in He.
  injection He as <-.
  rewrite Rmult_assoc, <- Rpower_plus in Hlo, Hhi.
  replace (IZR h / 12 + -49 / 1200) with ((IZR h - 49 / 100) / 12) in Hlo
    by lra.
  replace (IZR h / 12 + 49 / 1200) with ((IZR h + 49 / 100) / 12) in Hhi
    by lra.
  assert (Hf : 0 < f).
  { assert (0 < r * Rpower 2 ((IZR h - 49 / 100) / 12))
      by (apply Rmult_lt_0_compat; [assumption | apply Rpower_2_pos]).
    lra. }
  split; [exact Hf |]. split.
  - now apply steps_lower.
  - now apply steps_upper.
Qed.

(** The note of a frequency within 49 cents of a note from octave 0 up. *)
Lemma noteFromFrequency_near (name : string) (o : Z) (f r e : R) :
  In name NOTE_NAMES -> (0 <= o)%Z -> 0 < r ->
  frequencyFromNote name (Fin (IZR o)) (Some (Fin r)) = Ret (Fin e) ->
  e * Rpower 2 (-49 / 1200) <= f <= e * Rpower 2 (49 / 1200) ->
  0 < f /\
  exists c : Z,
    (-49 <= c <= 49)%Z /\
    noteFromFrequency (Fin f) (Some (Fin r)) =
    {| note := Str name;
       octave := Num (Fin (IZR o));
       cents := Num (Fin (IZR c)) |}.
Proof.
  intros Hin Ho Hr He Hf.
  destruct (within_49_cents name o f r e Hin Hr He Hf) as [Hpos Hs].
  destruct (In_indexOf name Hin) as [Hi Hnth].
  cbv zeta in Hs.
  set (i := indexOf NOTE_NAMES name) in *.
  set (h := (i + 12 * o - 57)%Z) in *.
  assert (En : nearest (steps f r) = h) by (apply Int_part_unique; lra).
  split; [exact Hpos |].
  exists (nearest ((steps f r - IZR h) * 100)). split.
  - assert (H1 : (nearest (-49) <= nearest ((steps f r - IZR h) * 100))%Z)
      by (apply nearest_le; lra).
    assert (H2 : (nearest ((steps f r - IZR h) * 100) <= nearest 49)%Z)
      by (apply nearest_le; lra).
    rewrite (nearest_IZR (-49)) in H1. rewrite (nearest_IZR 49) in H2. lia.
  - rewrite noteFromFrequency_positive by assumption. rewrite En.
    replace (h + 57)%Z with (i + o * 12)%Z by (unfold h; lia).
    rewrite Z.rem_mod_nonneg by lia.
    rewrite Z.mod_add, Z.div_add by lia.
    rewrite Z.mod_small, Z.div_small by lia.
    rewrite index_IZR. destruct (Z.ltb_spec i 0); [lia |].
    rewrite Hnth. reflexivity.
Qed.

(** X14. [getClosestNote] finds the note that is within 49 cents.  For a
    name of the table, an octave [o] from 0 to 100 and a reference from
    1 Hz to 100 kHz, with [e] the value of [frequencyFromNote]: on a
    frequency [f] within 49 cents of [e] it returns that name, that octave
    and [e], with cents in [[-49, 49]]. *)
Theorem getClosestNote_nearest (name : string) (o : Z) (f r e : R) :
  In name NOTE_NAMES -> (0 <= o <= 100)%Z -> 1 <= r <= 100000 ->
  frequencyFromNote name (Fin (IZR o)) (Some (Fin r)) = Ret (Fin e) ->
  e * Rpower 2 (-49 / 1200) <= f <= e * Rpower 2 (49 / 1200) ->
  exists c : Z,
    (-49 <= c <= 49)%Z /\
    getClosestNote (Fin f) (Some (Fin r)) =
    Ret (Some {| closest_note := Str name;
                 closest_octave := Num (Fin (IZR o));
                 closest_frequency := Fin e;
                 closest_cents := Num (Fin (IZR c)) |}).
Proof.
  intros Hin [Ho _] [Hr _] He Hf.
  destruct (noteFromFrequency_near name o f r e Hin Ho ltac:(lra) He Hf)
    as (_ & c & Hc & E).
  exists c. split; [exact Hc |].
  unfold getClosestNote. cbn [orDefault]. rewrite E. cbn [note octave cents].
  rewrite (NOTE_NAMES_truthy name Hin). cbn [negb]. rewrite He. reflexivity.
Qed.

(** Half a cent is less than 49 cents: [1 + 1/2400 < 2^(49/1200)]. *)
Lemma Rpower_2_49_cents : 441 / 440 < Rpower 2 (49 / 1200).
Proof.
  unfold Rpower. pose proof ln_lt_2 as L.
  assert (H : 0 < 49 / 1200 * ln 2) by lra.
  pose proof (exp_ineq1 (49 / 1200 * ln 2) ltac:(lra)). lra.
Qed.

Lemma getClosestNote_nearest_witness :
  exists c : Z,
    (-49 <= c <= 49)%Z /\
    getClosestNote (Fin 441) (Some (Fin 440)) =
    Ret (Some {| closest_note := Str "A";
                 closest_octave := Num (Fin (IZR 4));
                 closest_frequency := Fin 440;
                 closest_cents := Num (Fin (IZR c)) |}).
Proof.
  pose proof Rpower_2_49_cents as P.
  assert (N : Rpower 2 (-49 / 1200) <= 1).
  { rewrite <- (Rpower_O 2) by lra. apply Rle_Rpower; lra. }
  apply (getClosestNote_nearest "A" 4 441 440 440);
    [cbn; tauto | lia | lra | | lra].
  rewrite frequencyFromNote_Fin by (vm_compute; discriminate).
  change (indexOf NOTE_NAMES "A" + 12 * 4 - 57)%Z with 0%Z.
  replace (0 / 12) with 0 by lra. rewrite Rpower_O by lra.
  do 2 f_equal. lra.
Defined.

(** ** The instrument table *)

(** X15. [getInstrumentReferences] never throws.  It returns [null]
    exactly for the identifiers that are neither a key of the table nor the
    name of a property inherited from [Object.prototype]; for such a name
    ("toString", "constructor", ...) it returns the inherited member. *)
Theorem getInstrumentReferences_lookup (instrument : string) :
  (exists v, getInstrumentReferences instrument = Ret v) /\
  (getInstrumentReferences instrument = Ret None <->
   ~ In instrument ["guitar"; "bass"; "violin"; "ukulele"]%string /\
   ~ In instrument Object_prototype) /\
  (In instrument Object_prototype ->
   getInstrumentReferences instrument = Ret (Some (Inherited instrument))).
Proof.
  assert (P : In instrument Object_prototype ->
              getInstrumentReferences instrument =
              Ret (Some (Inherited instrument))).
  { intros Hin. unfold Object_prototype in Hin. cbn [In] in Hin.
    repeat (destruct Hin as [<- | Hin]; [reflexivity |]). contradiction. }
  assert (K : In instrument ["guitar"; "bass"; "violin"; "ukulele"]%string ->
              exists p, getInstrumentReferences instrument =
                        Ret (Some (Own p))).
  { intros Hin. cbn [In] in Hin.
    repeat (destruct Hin as [<- | Hin]; [eexists; reflexivity |]).
    contradiction. }
  destruct (in_dec string_dec instrument
              ["guitar"; "bass"; "violin"; "ukulele"]%string) as [Hk | Hk];
    [| destruct (in_dec string_dec instrument Object_prototype) as [Hp | Hp]].
  - destruct (K Hk) as [p E]. split; [eauto |]. split; [| exact P].
    rewrite E. split; [discriminate | tauto].
  - split; [eauto |]. split; [| exact P].
    rewrite (P Hp). split; [discriminate | tauto].
  - pose proof (getInstrumentReferences_unrecognised instrument Hk Hp) as E.
    split; [eauto |]. split; [tauto | exact P].
Qed.

(** A frequency of the table, as [frequencyFromNote] leaves it. *)
Lemma table_frequency_positive (i o : R) :
  exists x : R,
    mul (Fin 440)
        (Math_pow (Fin 2)
           (div (sub (add (Fin i) (mul (Fin o) (Fin 12))) (Fin 57)) (Fin 12))) =
    Fin x /\ 0 < x.
Proof.
  eexists. split.
  - unfold sub. cbn [mul add neg]. rewrite div_Fin by lra.
    rewrite Math_pow_2. reflexivity.
  - apply Rmult_lt_0_compat; [lra | apply Rpower_2_pos].
Qed.

(** X16. Every entry of the table has one frequency per string, and every
    frequency is a positive real. *)
Theorem getInstrumentReferences_frequencies (instrument : string)
    (p : InstrumentReference) :
  getInstrumentReferences instrument = Ret (Some (Own p)) ->
  length (frequencies p) = length (strings p) /\
  Forall (fun frequency => exists x : R, frequency = Fin x /\ 0 < x)
         (frequencies p).
Proof.
  unfold getInstrumentReferences. intros H.
  destruct references as [table | msg] eqn:E; [| discriminate].
  cbv -[Number.mul Number.div Number.sub Number.add Math_pow IZR] in E.
  assert (Et : table = _) by (symmetry; exact (f_equal
    (fun r => match r with Ret t => t | Throw _ => table end) E)).
  clear E. subst table. cbv [bind lookup] in H.
  repeat match type of H with
  | context [String.eqb ?k instrument] =>
      destruct (String.eqb k instrument);
        [match type of H with
         | Ret (Some (Own ?q)) = _ =>
             assert (Hq : q = p) by congruence; rewrite <- Hq
         end;
         split; [reflexivity |];
         unfold frequencies;
         repeat (constructor; [apply table_frequency_positive |]);
         constructor |]
  end.
  destruct (existsb _ _); discriminate.
Qed.

Lemma getInstrumentReferences_frequencies_witness :
  exists p,
    getInstrumentReferences "bass" = Ret (Some (Own p)) /\
    length (frequencies p) = length (strings p) /\
    Forall (fun frequency => exists x : R, frequency = Fin x /\ 0 < x)
           (frequencies p).
Proof.
  eexists. split; [reflexivity |].
  apply (getInstrumentReferences_frequencies "bass"). reflexivity.
Defined.

End NoteMapperFacts.

(* ================================================================== *)
(** * Part XIII. main.js: from the estimate to the display *)
(* ================================================================== *)

Module MainFacts.
Import Number NumberFacts NoteRecognition Statements NoteRecognitionFacts.
Import NoteMapperFacts Main.
Local Open Scope R_scope.

(** ** The estimate as a number *)

Lemma of_float_nan (x : float) : PrimFloat.is_nan x = true -> of_float x = NaN.
Proof.
  unfold PrimFloat.is_nan, of_float. rewrite FloatAxioms.eqb_spec.
  destruct (Prim2SF x) as [s | s | | s m e]; [| | reflexivity |];
    unfold SFeqb, SFcompare; destruct s;
    rewrite ?Z.compare_refl, ?Pos.compare_refl; discriminate.
Qed.

Lemma of_float_nonpositive (x : float) :
  (x <=? 0)%float = true -> leb (of_float x) (Fin 0) = true.
Proof.
  rewrite FloatAxioms.leb_spec. unfold of_float.
  replace (Prim2SF 0) with (S754_zero false) by (vm_compute; reflexivity).
  destruct (Prim2SF x) as [s | s | | s m e]; try discriminate.
  - intros _. apply leb_Fin. lra.
  - destruct s; [reflexivity | discriminate].
  - destruct s; [intros _ | discriminate]. apply leb_Fin.
    cbn [cond_Zopp Z.opp].
    assert (IZR (Z.neg m) < 0) by (apply IZR_lt; lia).
    assert (0 < powerRZ 2 e) by (apply powerRZ_lt; lra).
    nra.
Qed.

Lemma SFeqb_finite (s s' : bool) (m m' : positive) (e e' : Z) :
  SFeqb (S754_finite s m e) (S754_finite s' m' e') = true ->
  s = s' /\ m = m' /\ e = e'.
Proof.
  unfold SFeqb, SFcompare.
  destruct s, s'; try discriminate;
    destruct (Z.compare_spec e e') as [He | He | He]; try discriminate;
    fold (Pos.compare m m');
    destruct (Pos.compare_spec m m') as [Hm | Hm | Hm]; try discriminate;
    auto.
Qed.

Lemma of_float_minus_one (x : float) :
  (x =? -1)%float = true -> of_float x = Fin (-1).
Proof.
  rewrite FloatAxioms.eqb_spec. intros H.
  rewrite <- of_float_NO_PITCH. unfold of_float, PitchDetection.NO_PITCH.
  replace (Prim2SF (-1))
    with (S754_finite true 4503599627370496 (-52)) in *
    by (vm_compute; reflexivity).
  destruct (Prim2SF x) as [s | s | | s m e]; try discriminate;
    [destruct s; discriminate |].
  apply SFeqb_finite in H. destruct H as (-> & -> & ->). reflexivity.
Qed.

(** ** The meter *)

Lemma ltb_asym (x y : float) :
  (x <? y)%float = true -> (y <? x)%float = false.
Proof.
  intros H. destruct (y <? x)%float eqn:E; [| reflexivity].
  pose proof (IEEEOrder.ltb_trans _ _ _ H E) as F.
  rewrite IEEEOrder.ltb_irrefl in F. discriminate.
Qed.

(** [Math.min(a, b)] is [NaN] or not above [a]. *)
Lemma Math_min_upper (a b : float) :
  IEEE.isNaN (Math_min a b) = true \/ (a <? Math_min a b)%float = false.
Proof.
  unfold Math_min.
  destruct (IEEE.isNaN a || IEEE.isNaN b); [now left | right].
  destruct (a <? b)%float eqn:Hab; [apply IEEEOrder.ltb_irrefl |].
  destruct (b <? a)%float eqn:Hba; [exact Hab |].
  destruct (isNegativeZero a); [apply IEEEOrder.ltb_irrefl | exact Hab].
Qed.

(** [Math.max(0, m)] is [NaN], or neither below 0 nor above what [m] is not
    above. *)
Lemma Math_max_0 (m : float) :
  (100 <? m)%float = false ->
  IEEE.isNaN (Math_max 0 m) = true \/
  ((Math_max 0 m <? 0)%float = false /\ (100 <? Math_max 0 m)%float = false).
Proof.
  intros Hm. unfold Math_max. change (IEEE.isNaN 0) with false. cbn [orb].
  destruct (IEEE.isNaN m); [now left | right].
  destruct (0 <? m)%float eqn:H0.
  - split; [now apply ltb_asym | exact Hm].
  - destruct (m <? 0)%float; [now split |].
    change (isNegativeZero 0) with false. cbv iota. now split.
Qed.

Lemma meterColor_IZR (c : Z) :
  meterColor (Fin (IZR c)) =
  if (Z.abs c <? 5)%Z then "var(--success-color)"%string
  else if (Z.abs c <? 15)%Z then "var(--accent-color)"%string
  else "var(--error-color)"%string.
Proof.
  unfold meterColor, Math_abs, ltb. rewrite <- abs_IZR.
  destruct (Rlt_dec (IZR (Z.abs c)) 5) as [H | H],
           (Z.ltb_spec (Z.abs c) 5) as [H5 | H5].
  - reflexivity.
  - apply lt_IZR in H. lia.
  - apply IZR_lt in H5. lra.
  - destruct (Rlt_dec (IZR (Z.abs c)) 15) as [H' | H'],
             (Z.ltb_spec (Z.abs c) 15) as [H15 | H15].
    + reflexivity.
    + apply lt_IZR in H'. lia.
    + apply IZR_lt in H15. lra.
    + reflexivity.
Qed.

(** The double of integral cents. *)
Lemma to_float_IZR (c : Z) :
  (Z.abs c <= 2 ^ 53)%Z -> to_float (Fin (IZR c)) = Some (IEEE.of_Z c).
Proof.
  intros H. unfold to_float, is_integer. rewrite Int_part_IZR.
  destruct (Req_dec_T (IZR c) (IZR c)); [| congruence].
  destruct (Z.leb_spec (Z.abs c) (2 ^ 53)); [reflexivity | lia].
Qed.

(** The positions for the cents from -50 to 50, one by one. *)
Lemma meterLeft_table (k : nat) :
  (k <= 100)%nat ->
  let c := (Z.of_nat k - 50)%Z in
  meterLeft (IEEE.of_Z c) =
  if (c =? -29)%Z then 21.000000000000004%float
  else if (c =? -28)%Z then 21.999999999999996%float
  else IEEE.of_Z (50 + c).
Proof.
  intros H.
  do 101 (destruct k as [| k]; [vm_compute; reflexivity |]).
  lia.
Qed.

(** X17. The position of the meter, computed in binary64.  For every
    double [cents] it is [NaN] or neither below 0 nor above 100.  For
    integral cents from -50 to 50 it is [50 + cents], except at -29 and -28,
    where the rounding of [cents / 50 * 50] leaves 21.000000000000004 and
    21.999999999999996. *)
Theorem meterLeft_range :
  (forall cents : float,
     IEEE.isNaN (meterLeft cents) = true \/
     ((meterLeft cents <? 0)%float = false /\
      (100 <? meterLeft cents)%float = false)) /\
  (forall c : Z,
     (-50 <= c <= 50)%Z ->
     meterLeft (IEEE.of_Z c) =
     if (c =? -29)%Z then 21.000000000000004%float
     else if (c =? -28)%Z then 21.999999999999996%float
     else IEEE.of_Z (50 + c)).
Proof.
  split.
  - intros cents. unfold meterLeft. cbv zeta.
    destruct (Math_min_upper 100 (50 + cents / 50 * 50)) as [H | H].
    + left. unfold Math_max. rewrite H. now rewrite orb_true_r.
    + now apply Math_max_0.
  - intros c Hc.
    pose proof (meterLeft_table (Z.to_nat (c + 50)) ltac:(lia)) as T.
    cbv zeta in T.
    replace (Z.of_nat (Z.to_nat (c + 50)) - 50)%Z with c in T by lia.
    exact T.
Qed.

(** ** Estimates that are not frequencies *)

Lemma updateDisplay_no_note (frequency cents : option number) (octave : value) :
  updateDisplay Null octave frequency cents = Blank /\
  updateDisplay Undefined octave frequency cents = Blank.
Proof.
  now destruct frequency.
Qed.

(** X18. An estimate other than [-1] that is [NaN] or at most 0 resets
    the display: [processAudio] filters the value [-1] only. *)
Theorem processAudio_invalid_estimate (dataArray : list float)
    (sampleRate : float) (referenceFrequency : number) :
  (PitchDetection.detectPitch dataArray sampleRate =? -1)%float = false ->
  PrimFloat.is_nan (PitchDetection.detectPitch dataArray sampleRate) = true \/
  (PitchDetection.detectPitch dataArray sampleRate <=? 0)%float = true ->
  processAudio dataArray sampleRate referenceFrequency = Some Blank.
Proof.
  intros Hne H. unfold processAudio. rewrite Hne. cbn [negb]. f_equal.
  set (frequency := of_float (PitchDetection.detectPitch dataArray sampleRate)).
  assert (E : noteFromFrequency frequency (Some referenceFrequency) = NO_NOTE).
  { apply noteFromFrequency_guard. subst frequency.
    destruct H as [H | H].
    - now rewrite (of_float_nan _ H).
    - rewrite (of_float_nonpositive _ H). apply orb_true_r. }
  rewrite E. apply updateDisplay_no_note.
Qed.

Lemma processAudio_invalid_estimate_witness :
  processAudio [] 44100%float (Fin 440) = Some Blank.
Proof.
  apply (processAudio_invalid_estimate [] 44100%float (Fin 440)).
  - vm_compute. reflexivity.
  - right. vm_compute. reflexivity.
Defined.

(** ** What is shown *)

(** With an infinite frequency there is no note index. *)
Lemma noteFromFrequency_infinite (ref : option number) :
  note (noteFromFrequency PInf ref) = Undefined.
Proof.
  unfold noteFromFrequency, halfStepsFromA4, exactHalfStepsFromA4.
  cbn [ToBoolean negb leb orb note].
  destruct (orDefault ref) as [| | | y]; try reflexivity.
  cbn [div]. destruct (is_neg y); cbn [signed_inf Math_log2 mul];
    [reflexivity |].
  destruct (Req_dec_T 12 0); [reflexivity |].
  destruct (is_neg 12); reflexivity.
Qed.

(** A positive estimate is not the value [-1]. *)
Lemma estimate_not_sentinel (estimate : float) (f : R) :
  of_float estimate = Fin f -> 0 < f -> (estimate =? -1)%float = false.
Proof.
  intros E Hf. destruct (estimate =? -1)%float eqn:H; [| reflexivity].
  apply of_float_minus_one in H. rewrite H in E. injection E as E. lra.
Qed.

Lemma squareWaveEstimate_pos : 0 < squareWaveEstimate.
Proof.
  unfold squareWaveEstimate.
  apply Rmult_lt_0_compat; [apply IZR_lt; lia | apply powerRZ_lt; lra].
Qed.

Lemma squareWave_estimate :
  of_float (PitchDetection.detectPitch (PitchDetection.squareWave 512 0)
                                       44100%float) =
  Fin squareWaveEstimate.
Proof.
  unfold of_float.
  replace (Prim2SF (PitchDetection.detectPitch
                      (PitchDetection.squareWave 512 0) 44100%float))
    with (S754_finite false 7755966713473040 (-44))
    by (vm_compute; reflexivity).
  reflexivity.
Qed.

(** What [processAudio] hands to [updateDisplay] on a positive estimate. *)
Lemma processAudio_positive (dataArray : list float) (sampleRate : float)
    (referenceFrequency : number) (f : R) :
  of_float (PitchDetection.detectPitch dataArray sampleRate) = Fin f ->
  0 < f ->
  processAudio dataArray sampleRate referenceFrequency =
  let r := noteFromFrequency (Fin f) (Some referenceFrequency) in
  Some (updateDisplay (note r) (octave r) (Some (Fin f))
                      (centsArgument (cents r))).
Proof.
  intros E Hf. unfold processAudio.
  rewrite (estimate_not_sentinel _ f E Hf), E. reflexivity.
Qed.

(** An estimate equal to the reference is shown as A4, in tune. *)
Lemma processAudio_at_reference (dataArray : list float) (sampleRate : float)
    (f : R) :
  of_float (PitchDetection.detectPitch dataArray sampleRate) = Fin f ->
  0 < f ->
  processAudio dataArray sampleRate (Fin f) =
  Some (Note {| noteName := Str "A";
                octaveText := Num (Fin 4);
                frequencyShown := Fin f;
                centsShown := Fin 0;
                left := option_map meterLeft (to_float (Fin 0));
                backgroundColor := meterColor (Fin 0) |}).
Proof.
  intros E Hf. rewrite (processAudio_positive _ _ _ f E Hf). cbv zeta.
  rewrite noteFromFrequency_positive by assumption.
  rewrite steps_same by assumption.
  replace (nearest 0) with 0%Z by (symmetry; apply (nearest_IZR 0)).
  replace ((0 - 0) * 100) with 0 by lra.
  replace (nearest 0) with 0%Z by (symmetry; apply (nearest_IZR 0)).
  change (Z.rem (0 + 57) 12) with 9%Z. change ((0 + 57) / 12)%Z with 4%Z.
  rewrite index_IZR. cbn [note octave cents centsArgument Z.ltb Z.compare].
  change (nth_error NOTE_NAMES (Z.to_nat 9)) with (Some "A"%string).
  unfold updateDisplay. cbn [truthy String.eqb negb andb ToBoolean].
  destruct (Req_dec_T 4 0); [lra |]. destruct (Req_dec_T f 0); [lra |].
  reflexivity.
Qed.

(** X19. [processAudio] shows a note only for an estimate that is a
    positive finite number; the note shown is a name of [NOTE_NAMES], the
    frequency shown is the estimate, and the octave shown is not 0. *)
Theorem processAudio_shows_positive_estimate (dataArray : list float)
    (sampleRate : float) (referenceFrequency : number) (s : Shown) :
  processAudio dataArray sampleRate referenceFrequency = Some (Note s) ->
  exists (x : R) (name : string) (o : number),
    of_float (PitchDetection.detectPitch dataArray sampleRate) = Fin x /\
    0 < x /\
    frequencyShown s = Fin x /\
    noteName s = Str name /\ In name NOTE_NAMES /\
    octaveText s = Num o /\ o <> Fin 0.
Proof.
  unfold processAudio.
  destruct (negb _); [| discriminate].
  set (frequency := of_float (PitchDetection.detectPitch dataArray sampleRate)).
  intros H. injection H as H. unfold updateDisplay in H.
  destruct (truthy _ && truthy _ && ToBoolean frequency) eqn:T;
    [| discriminate].
  injection H as <-. cbn [frequencyShown noteName octaveText].
  apply andb_prop in T. destruct T as [T Tf].
  apply andb_prop in T. destruct T as [Tn To].
  destruct (noteFromFrequency_shape frequency (Some referenceFrequency))
    as [E | [E | (name & o & E & Hin & Eo)]]; cbv zeta in E;
    try (rewrite E in Tn; discriminate).
  assert (G : negb (ToBoolean frequency) || leb frequency (Fin 0) = false).
  { destruct (negb (ToBoolean frequency) || leb frequency (Fin 0)) eqn:G;
      [| reflexivity].
    apply noteFromFrequency_guard with (ref := Some referenceFrequency) in G.
    rewrite G in E. discriminate. }
  destruct frequency as [| | | x] eqn:F.
  - discriminate.
  - rewrite noteFromFrequency_infinite in E. discriminate.
  - discriminate.
  - exists x, name, o. split; [reflexivity |].
    apply orb_false_elim in G. destruct G as [_ G].
    assert (Hx : ~ x <= 0).
    { intros Hx. apply leb_Fin in Hx. congruence. }
    split; [lra |]. split; [reflexivity |]. split; [exact E |].
    split; [exact Hin |]. split; [exact Eo |].
    intros ->. rewrite Eo in To. cbn in To.
    destruct (Req_dec_T 0 0); [discriminate | lra].
Qed.

Lemma processAudio_shows_positive_estimate_witness :
  exists (x : R) (name : string) (o : number),
    of_float (PitchDetection.detectPitch (PitchDetection.squareWave 512 0)
                                         44100%float) = Fin x /\
    0 < x /\
    Fin squareWaveEstimate = Fin x /\
    Str "A" = Str name /\ In name NOTE_NAMES /\
    Num (Fin 4) = Num o /\ o <> Fin 0.
Proof.
  apply (processAudio_shows_positive_estimate
           (PitchDetection.squareWave 512 0) 44100%float
           (Fin squareWaveEstimate)
           {| noteName := Str "A";
              octaveText := Num (Fin 4);
              frequencyShown := Fin squareWaveEstimate;
              centsShown := Fin 0;
              left := option_map meterLeft (to_float (Fin 0));
              backgroundColor := meterColor (Fin 0) |}).
  apply processAudio_at_reference;
    [exact squareWave_estimate | exact squareWaveEstimate_pos].
Defined.

(** ** Which notes are shown *)

Lemma Rpower_2_le (y z : R) : y <= z -> Rpower 2 y <= Rpower 2 z.
Proof.
  intros H. apply Rle_Rpower; lra.
Qed.

Lemma Rpower_2_mult (x a b : R) :
  x * Rpower 2 a * Rpower 2 b = x * Rpower 2 (a + b).
Proof.
  rewrite Rpower_plus. ring.
Qed.

(** X20. An estimate within 49 cents of a note of octave 0 gets the name
    of that note and the octave 0 from [noteFromFrequency], but
    [processAudio] resets the display: the octave 0 is falsy in the
    condition [note && octave && frequency] of [updateDisplay]. *)
Theorem processAudio_octave_0 (dataArray : list float) (sampleRate : float)
    (name : string) (f r e : R) :
  searchEnds sampleRate ->
  In name NOTE_NAMES -> 0 < r ->
  of_float (PitchDetection.detectPitch dataArray sampleRate) = Fin f ->
  frequencyFromNote name (Fin (IZR 0)) (Some (Fin r)) = Ret (Fin e) ->
  e * Rpower 2 (-49 / 1200) <= f <= e * Rpower 2 (49 / 1200) ->
  note (noteFromFrequency (Fin f) (Some (Fin r))) = Str name /\
  octave (noteFromFrequency (Fin f) (Some (Fin r))) = Num (Fin 0) /\
  processAudio dataArray sampleRate (Fin r) = Some Blank.
Proof.
  intros _ Hin Hr E He Hf.
  destruct (noteFromFrequency_near name 0 f r e Hin ltac:(lia) Hr He Hf)
    as (Hpos & c & _ & En).
  rewrite (processAudio_positive _ _ _ f E Hpos). cbv zeta. rewrite En.
  cbn [note octave cents centsArgument].
  split; [reflexivity |]. split; [reflexivity |].
  unfold updateDisplay. cbn [truthy ToBoolean].
  destruct (Req_dec_T 0 0); [| lra].
  now rewrite andb_false_r.
Qed.

Lemma processAudio_octave_0_witness :
  note (noteFromFrequency (Fin squareWaveEstimate)
          (Some (Fin (squareWaveEstimate * Rpower 2 (57 / 12))))) =
  Str "C" /\
  octave (noteFromFrequency (Fin squareWaveEstimate)
            (Some (Fin (squareWaveEstimate * Rpower 2 (57 / 12))))) =
  Num (Fin 0) /\
  processAudio (PitchDetection.squareWave 512 0) 44100%float
               (Fin (squareWaveEstimate * Rpower 2 (57 / 12))) =
  Some Blank.
Proof.
  pose proof squareWaveEstimate_pos as Hx.
  assert (N : Rpower 2 (-49 / 1200) <= 1).
  { rewrite <- (Rpower_O 2) by lra. apply Rpower_2_le. lra. }
  assert (P : 1 <= Rpower 2 (49 / 1200)).
  { rewrite <- (Rpower_O 2) at 1 by lra. apply Rpower_2_le. lra. }
  apply (processAudio_octave_0 (PitchDetection.squareWave 512 0) 44100%float
           "C" squareWaveEstimate (squareWaveEstimate * Rpower 2 (57 / 12))
           squareWaveEstimate).
  - vm_compute. reflexivity.
  - cbn. tauto.
  - apply Rmult_lt_0_compat; [assumption | apply Rpower_2_pos].
  - exact squareWave_estimate.
  - rewrite frequencyFromNote_Fin by (vm_compute; discriminate).
    change (indexOf NOTE_NAMES "C" + 12 * 0 - 57)%Z with (-57)%Z.
    rewrite Rpower_2_mult.
    replace (57 / 12 + IZR (-57) / 12) with 0 by lra.
    rewrite Rpower_O by lra. do 2 f_equal. lra.
  - split; nra.
Defined.

(** X21. An estimate within 49 cents of a note of an octave from 1 to 100
    is shown as that note: its name, its octave, the estimate as the
    frequency, and cents [c] in [[-49, 49]]; the position of the meter is
    [meterLeft] of the double [c], and its colour is the success colour for
    [|c| < 5], the accent colour for [|c| < 15], the error colour
    otherwise. *)
Theorem processAudio_shows_note (dataArray : list float) (sampleRate : float)
    (name : string) (o : Z) (f r e : R) :
  searchEnds sampleRate ->
  In name NOTE_NAMES -> (1 <= o <= 100)%Z -> 0 < r ->
  of_float (PitchDetection.detectPitch dataArray sampleRate) = Fin f ->
  frequencyFromNote name (Fin (IZR o)) (Some (Fin r)) = Ret (Fin e) ->
  e * Rpower 2 (-49 / 1200) <= f <= e * Rpower 2 (49 / 1200) ->
  exists c : Z,
    (-49 <= c <= 49)%Z /\
    processAudio dataArray sampleRate (Fin r) =
    Some (Note {| noteName := Str name;
                  octaveText := Num (Fin (IZR o));
                  frequencyShown := Fin f;
                  centsShown := Fin (IZR c);
                  left := Some (meterLeft (IEEE.of_Z c));
                  backgroundColor :=
                    if (Z.abs c <? 5)%Z then "var(--success-color)"%string
                    else if (Z.abs c <? 15)%Z then "var(--accent-color)"%string
                    else "var(--error-color)"%string |}).
Proof.
  intros _ Hin [Ho _] Hr E He Hf.
  destruct (noteFromFrequency_near name o f r e Hin ltac:(lia) Hr He Hf)
    as (Hpos & c & Hc & En).
  exists c. split; [exact Hc |].
  rewrite (processAudio_positive _ _ _ f E Hpos). cbv zeta. rewrite En.
  cbn [note octave cents centsArgument]. unfold updateDisplay.
  rewrite (NOTE_NAMES_truthy name Hin). cbn [truthy andb].
  replace (ToBoolean (Fin (IZR o))) with true
    by (symmetry; apply ToBoolean_Fin, not_0_IZR; lia).
  replace (ToBoolean (Fin f)) with true
    by (symmetry; apply ToBoolean_Fin; lra).
  cbn [andb]. rewrite meterColor_IZR, to_float_IZR by lia. reflexivity.
Qed.

Lemma processAudio_shows_note_witness :
  exists c : Z,
    (-49 <= c <= 49)%Z /\
    processAudio (PitchDetection.squareWave 512 0) 44100%float
                 (Fin squareWaveEstimate) =
    Some (Note {| noteName := Str "A";
                  octaveText := Num (Fin (IZR 4));
                  frequencyShown := Fin squareWaveEstimate;
                  centsShown := Fin (IZR c);
                  left := Some (meterLeft (IEEE.of_Z c));
                  backgroundColor :=
                    if (Z.abs c <? 5)%Z then "var(--success-color)"%string
                    else if (Z.abs c <? 15)%Z then "var(--accent-color)"%string
                    else "var(--error-color)"%string |}).
Proof.
  pose proof squareWaveEstimate_pos as Hx.
  assert (N : Rpower 2 (-49 / 1200) <= 1).
  { rewrite <- (Rpower_O 2) by lra. apply Rpower_2_le. lra. }
  assert (P : 1 <= Rpower 2 (49 / 1200)).
  { rewrite <- (Rpower_O 2) at 1 by lra. apply Rpower_2_le. lra. }
  apply (processAudio_shows_note (PitchDetection.squareWave 512 0)
           44100%float "A" 4 squareWaveEstimate squareWaveEstimate
           squareWaveEstimate).
  - vm_compute. reflexivity.
  - cbn. tauto.
  - lia.
  - assumption.
  - exact squareWave_estimate.
  - rewrite frequencyFromNote_Fin by (vm_compute; discriminate).
    change (indexOf NOTE_NAMES "A" + 12 * 4 - 57)%Z with 0%Z.
    replace (0 / 12) with 0 by lra. rewrite Rpower_O by lra.
    do 2 f_equal. lra.
  - split; nra.
Defined.

End MainFacts.
